(** * bidbot: a Telegram auction bot over MongoDB

    Shallow embedding of the two programs of the repository:

    - [src/index.js], the simple variant (bid range only), in [Module Simple];
    - [src/unnamed/part_000], the timed variant (deadline, bid direction,
      periodic sweep, [/biddeditems]), in [Module Timed].

    The MongoDB collections are lists in natural (insertion) order, the
    transactional session is a buffer of pending writes, and every handler
    is a computation in a state-and-exception monad over a [World] that also
    holds the clock, a plan of infrastructure failures and the chronological
    trace of what the process did to the outside (messages, console lines,
    committed writes). *)

From Stdlib Require Import ZArith List String Bool Lia.
Import ListNotations.
Local Open Scope Z_scope.

Set Implicit Arguments.

(** ** Documents *)

(** A document field that JavaScript and MongoDB tell apart three ways:
    not in the document, stored as [null], or stored with a value. *)
Inductive Field (A : Type) : Type :=
| Missing
| Null
| Value (a : A).
Arguments Missing {A}.
Arguments Null {A}.
Arguments Value {A} a.

(** [(low|high)] in the [/createitem] pattern. *)
Inductive Direction := low | high.

(** [{ userId, chatId }] *)
Record User := mkUser { userId : Z; chatId : Z }.

(** [{ itemId, userId, amount, timestamp }].  Amounts are what [parseFloat]
    gives on a [(\d+)] group: never [NaN], and a whole number (the double
    nearest to the digits), taken here as its value in [Z]; the [isNaN]
    tests of the handlers are therefore left out, their [<= 0] tests kept. *)
Record Bid := mkBid {
  itemId : nat;
  bid_userId : Z;
  amount : Z;
  timestamp : Z }.

(** An item document.  [index.js] stores neither [endTime], [completed] nor
    [bidDirection]: those fields are [None] there.  [highestBid] is written
    as [null] on creation by both programs. *)
Record Item := mkItem {
  _id : nat;
  name : string;
  creatorId : Z;
  lowAmount : Z;
  highAmount : Z;
  endTime : option Z;
  highestBid : Field Bid;
  completed : option bool;
  bidDirection : option Direction }.

Definition set_highestBid (b : Bid) (it : Item) : Item :=
  mkItem (_id it) (name it) (creatorId it) (lowAmount it) (highAmount it)
         (endTime it) (Value b) (completed it) (bidDirection it).

Definition set_completed (it : Item) : Item :=
  mkItem (_id it) (name it) (creatorId it) (lowAmount it) (highAmount it)
         (endTime it) (highestBid it) (Some true) (bidDirection it).

(** ** The database *)

Record Db := mkDb {
  users : list User;
  items : list Item;
  bids : list Bid }.

(** [updateOne] and [deleteOne] touch the first matching document only. *)
Fixpoint update_first {A} (p : A -> bool) (f : A -> A) (l : list A) : list A :=
  match l with
  | [] => []
  | x :: r => if p x then f x :: r else x :: update_first p f r
  end.

Fixpoint delete_first {A} (p : A -> bool) (l : list A) : list A :=
  match l with
  | [] => []
  | x :: r => if p x then r else x :: delete_first p r
  end.

Definition has_id (id : nat) (it : Item) : bool := Nat.eqb (_id it) id.
Definition has_name (n : string) (it : Item) : bool := String.eqb (name it) n.
Definition has_userId (u : Z) (x : User) : bool := userId x =? u.

(** The writes the two programs issue. *)
Inductive WriteOp :=
| InsertUser (u : User)                 (* users.insertOne({userId, chatId}) *)
| InsertItem (it : Item)                (* items.insertOne(item) *)
| InsertBid (b : Bid)                   (* bids.insertOne(bid) *)
| SetHighestBid (id : nat) (b : Bid)    (* items.updateOne({_id}, {$set: {highestBid: bid}}) *)
| SetCompleted (id : nat)               (* items.updateOne({_id}, {$set: {completed: true}}) *)
| DeleteItem (id : nat).                (* items.deleteOne({_id}) *)

Definition apply_write (d : Db) (op : WriteOp) : Db :=
  match op with
  | InsertUser u => mkDb (users d ++ [u]) (items d) (bids d)
  | InsertItem it => mkDb (users d) (items d ++ [it]) (bids d)
  | InsertBid b => mkDb (users d) (items d) (bids d ++ [b])
  | SetHighestBid id b =>
      mkDb (users d) (update_first (has_id id) (set_highestBid b) (items d)) (bids d)
  | SetCompleted id =>
      mkDb (users d) (update_first (has_id id) set_completed (items d)) (bids d)
  | DeleteItem id => mkDb (users d) (delete_first (has_id id) (items d)) (bids d)
  end.

Definition apply_writes (d : Db) (ops : list WriteOp) : Db :=
  fold_left apply_write ops d.

(** ** Messages and console lines *)

(** One line of an item listing: name, highest amount if any, bid time if any. *)
Record Line := mkLine { line_name : string; line_bid : option Z; line_time : option Z }.

(** One line of the [/items] listing of [index.js]: name, highest amount if
    any, and the bid range. *)
Record RangeLine := mkRangeLine {
  range_name : string; range_bid : option Z; range_low : Z; range_high : Z }.

(** The texts passed to [bot.sendMessage], one constructor per template, with
    the interpolated values as arguments. *)
Inductive Text :=
| AlreadyRegistered        (* 'You are already registered.' *)
| Registered               (* 'You have been successfully registered.' *)
| RegisterFailed           (* 'Failed to register. Please try again later.' *)
| InvalidAmounts           (* 'Please enter valid low and high bid amounts ...' *)
| NeedRegister             (* 'You need to register first using /register command.' *)
| ItemCreated (n : string) (lo hi : Z) (dir : option Direction) (ends : option Z)
| CreateFailed             (* 'Failed to create item. Please try again later.' *)
| InvalidBid               (* 'Please enter a valid bid amount.' *)
| NoSuchItem (n : string)  (* `Item '${itemName}' does not exist.` *)
| AuctionEnded (n : string)
| TowardsLow (hi : Z)      (* '... Your bid should be less than $${item.highAmount}.' *)
| TowardsHigh (lo : Z)     (* '... Your bid should be more than $${item.lowAmount}.' *)
| OutOfRange (lo hi : Z)   (* 'Your bid must be within the range ...' *)
| TooLow (current : Z)     (* 'Your bid must be higher than the current highest bid of ...' *)
| Outbid (n : string) (a : Z)
| BidPlaced (a : Z) (n : string)
| BidError                 (* 'Error placing your bid. Please try again later.' *)
| Won (n : string) (a : Z) (* 'Congratulations! You have won the auction for ...' *)
| Ended (n : string) (a : Z) (* 'The auction for ... has ended. The winning bid is ...' *)
| NoBiddedItems            (* 'No items have received bids yet.' *)
| BiddedItems (ls : list Line) (* `Bidded items:\n${itemList}` *)
| ListFailed               (* 'Error listing bidded items. Please try again later.' *)
| NoBidsYet (n : string)   (* `No bids have been placed on '${itemName}' yet.` *)
| CurrentBid (n : string) (a : Z) (* `The current highest bid on '${itemName}' is ...` *)
| CurrentBidFailed         (* 'Error fetching the current highest bid. Please try again later.' *)
| NoItems                  (* 'No items available for bidding.' *)
| ItemList (ls : list Line)            (* `Items available for bidding:\n${itemList}`, part_000 *)
| ItemRangeList (ls : list RangeLine)  (* the same, with the lines of index.js *)
| ItemsFailed.             (* 'Error listing items. Please try again later.' *)

Inductive LogLine :=
| LogDeleted (n : string)       (* console.log(`Item '${item.name}' has been deleted.`) *)
| ErrFinalizing (n : string)    (* 'Error marking item ... as completed or deleting:' *)
| ErrSweep                      (* 'Error checking and finalizing auctions:' *)
| ErrRegistering                (* "Error registering user:" *)
| ErrCreating                   (* "Error creating item:" *)
| ErrPlacingBid                 (* "Error placing bid:" *)
| ErrListing                    (* "Error listing bidded items:" *)
| UnhandledRejection            (* process.on('unhandledRejection') *)
| ErrFetchingBid                (* "Error fetching current highest bid:" *)
| ErrListingItems.              (* "Error listing items:" *)

(** What the process did, in the order it did it. *)
Inductive Event :=
| Sent (dest : Z) (t : Text) (delivered : bool)
| Console (l : LogLine)
| Wrote (op : WriteOp)           (* a write outside any transaction *)
| Committed (ops : list WriteOp) (* commitTransaction succeeded *)
| Aborted.                       (* abortTransaction succeeded *)

(** ** The world a handler runs in *)

Record World := mkWorld {
  db : Db;
  txn : option (list WriteOp);  (* pending writes of the session's transaction *)
  nextId : nat;                 (* supply of fresh ObjectIds *)
  now : Z;                      (* new Date(), in milliseconds *)
  faults : list bool;           (* true: the next external call fails *)
  trace : list Event }.

Definition init : World := mkWorld (mkDb [] [] []) None 0%nat 0 [] [].

Definition with_db (d : Db) (w : World) : World :=
  mkWorld d (txn w) (nextId w) (now w) (faults w) (trace w).
Definition with_txn (t : option (list WriteOp)) (w : World) : World :=
  mkWorld (db w) t (nextId w) (now w) (faults w) (trace w).
Definition with_nextId (n : nat) (w : World) : World :=
  mkWorld (db w) (txn w) n (now w) (faults w) (trace w).
Definition with_faults (f : list bool) (w : World) : World :=
  mkWorld (db w) (txn w) (nextId w) (now w) f (trace w).
Definition emit (e : Event) (w : World) : World :=
  mkWorld (db w) (txn w) (nextId w) (now w) (faults w) (trace w ++ [e]).
(** The environment between two handler runs: a new failure plan and time. *)
Definition env (f : list bool) (t : Z) (w : World) : World :=
  mkWorld (db w) (txn w) (nextId w) t f (trace w).

(** ** The monad of handlers: state and exceptions *)

Inductive Err := InfraError | TypeError.

Inductive Result (A : Type) : Type :=
| Ok (a : A)
| Throw (e : Err).
Arguments Ok {A} a.
Arguments Throw {A} e.

Definition M (A : Type) : Type := World -> Result A * World.

Definition ret {A} (a : A) : M A := fun w => (Ok a, w).
Definition throw {A} (e : Err) : M A := fun w => (Throw e, w).
Definition bind {A B} (m : M A) (k : A -> M B) : M B :=
  fun w => match m w with
           | (Ok a, w') => k a w'
           | (Throw e, w') => (Throw e, w')
           end.

Declare Scope m_scope.
Delimit Scope m_scope with M.
Notation "x <- m ;; k" := (bind m (fun x => k))
  (at level 61, m at next level, right associativity) : m_scope.
Notation "m ;; k" := (bind m (fun _ => k))
  (at level 61, right associativity) : m_scope.
Local Open Scope m_scope.

(** [try { body } catch (err) { handler }] *)
Definition try_catch {A} (body : M A) (handler : Err -> M A) : M A :=
  fun w => match body w with
           | (Ok a, w') => (Ok a, w')
           | (Throw e, w') => handler e w'
           end.

(** [try { body } finally { fin }] *)
Definition try_finally {A} (body : M A) (fin : M unit) : M A :=
  fun w => match body w with
           | (r, w') => match fin w' with
                        | (Ok _, w'') => (r, w'')
                        | (Throw e, w'') => (Throw e, w'')
                        end
           end.

(** The world a computation leaves. *)
Definition exec {A} (m : M A) (w : World) : World := snd (m w).

(** ** External calls *)

(** Every call that leaves the process takes the next entry of the plan. *)
Definition fails : M bool :=
  fun w => match faults w with
           | [] => (Ok false, w)
           | f :: r => (Ok f, with_faults r w)
           end.

Definition get {A} (f : World -> A) : M A := fun w => (Ok (f w), w).
Definition modify (f : World -> World) : M unit := fun w => (Ok tt, f w).

(** An awaited read of the committed database. *)
Definition query {A} (f : Db -> A) : M A :=
  bad <- fails ;;
  if bad then throw InfraError else get (fun w => f (db w)).

(** An awaited read through the session: it sees the pending writes. *)
Definition query_in_session {A} (f : Db -> A) : M A :=
  bad <- fails ;;
  if bad then throw InfraError
  else get (fun w => f (apply_writes (db w) (match txn w with Some ops => ops | None => [] end))).

(** An awaited write outside any session. *)
Definition write (op : WriteOp) : M unit :=
  bad <- fails ;;
  if bad then throw InfraError
  else modify (fun w => emit (Wrote op) (with_db (apply_write (db w) op) w)).

(** An awaited write with [{ session }]: buffered while a transaction is
    open, applied at once otherwise. *)
Definition write_in_session (op : WriteOp) : M unit :=
  bad <- fails ;;
  if bad then throw InfraError
  else modify (fun w => match txn w with
                        | Some ops => with_txn (Some (ops ++ [op])) w
                        | None => emit (Wrote op) (with_db (apply_write (db w) op) w)
                        end).

(** [insertOne] on items: the driver gives the document a fresh [_id]. *)
Definition insertOne_item (doc : nat -> Item) : M unit :=
  id <- get nextId ;;
  modify (fun w => with_nextId (S id) w) ;;
  write (InsertItem (doc id)).

Definition startTransaction : M unit := modify (with_txn (Some [])).

Definition commitTransaction : M unit :=
  bad <- fails ;;
  if bad then throw InfraError
  else modify (fun w => match txn w with
                        | Some ops =>
                            emit (Committed ops)
                              (with_txn None (with_db (apply_writes (db w) ops) w))
                        | None => w
                        end).

Definition abortTransaction : M unit :=
  bad <- fails ;;
  if bad then throw InfraError
  else modify (fun w => emit Aborted (with_txn None w)).

(** [session.endSession()] drops whatever the session still holds. *)
Definition endSession : M unit := modify (with_txn None).

Definition console (l : LogLine) : M unit := modify (emit (Console l)).

(** [bot.sendMessage] returns a promise; [true] stands for a fulfilled one. *)
Definition sendMessage (dest : Z) (t : Text) : M bool :=
  bad <- fails ;;
  modify (emit (Sent dest t (negb bad))) ;;
  ret (negb bad).

(** [await p]: a rejected promise throws here. *)
Definition await (p : M bool) : M unit :=
  ok <- p ;; if ok then ret tt else throw InfraError.

(** A promise nobody awaits (also one handed to [return] inside a handler,
    whose caller drops it): a rejection reaches only the process-wide
    ['unhandledRejection'] listener, which logs it. *)
Definition detached (p : M bool) : M unit :=
  ok <- p ;; if ok then ret tt else console UnhandledRejection.

(** [new Date()] *)
Definition newDate : M Z := get now.

(** ** Handlers common to both programs *)

(** [bot.onText(/\/register/, ...)], the same text in both files. *)
Definition onText_register (chat from : Z) : M unit :=
  try_catch
    (existingUser <- query (fun d => find (has_userId from) (users d)) ;;
     match existingUser with
     | Some _ => detached (sendMessage chat AlreadyRegistered)
     | None =>
         write (InsertUser (mkUser from chat)) ;;
         detached (sendMessage chat Registered)
     end)
    (fun _ =>
       console ErrRegistering ;;
       detached (sendMessage chat RegisterFailed)).

(** JavaScript truthiness of [item.highestBid]. *)
Definition current_bid (it : Item) : option Bid :=
  match highestBid it with
  | Value b => Some b
  | _ => None
  end.

(** Lines 96-127 of [index.js] and 171-201 of [part_000]: the session block
    of the bid handler.  The two texts differ in one expression, the
    destination of the outbid message ([previousBidder.chatId] in
    [index.js], [previousBidder.userId] in [part_000]), taken here as
    [outbidDest]. *)
Definition bid_session (outbidDest : User -> Z)
    (chat from : Z) (itemName : string) (bidAmount : Z) (item : Item) : M unit :=
  try_finally
    (try_catch
       (startTransaction ;;
        found <- query_in_session (fun d => find (has_id (_id item)) (items d)) ;;
        match found with
        | None => throw TypeError  (* itemWithLock.highestBid on null *)
        | Some itemWithLock =>
            let place :=
              t <- newDate ;;
              let bid := mkBid (_id itemWithLock) from bidAmount t in
              write_in_session (InsertBid bid) ;;
              write_in_session (SetHighestBid (_id itemWithLock) bid) ;;
              match current_bid itemWithLock with
              | Some previous =>
                  previousBidder <-
                    query (fun d => find (has_userId (bid_userId previous)) (users d)) ;;
                  match previousBidder with
                  | Some p =>
                      detached (sendMessage (outbidDest p) (Outbid itemName bidAmount))
                  | None => ret tt
                  end
              | None => ret tt
              end ;;
              commitTransaction ;;
              detached (sendMessage chat (BidPlaced bidAmount itemName)) in
            match current_bid itemWithLock with
            | Some cur =>
                if bidAmount <=? amount cur then
                  abortTransaction ;;
                  detached (sendMessage chat (TooLow (amount cur)))
                else place
            | None => place
            end
        end)
       (fun _ =>
          abortTransaction ;;
          console ErrPlacingBid ;;
          detached (sendMessage chat BidError)))
    endSession.

(** [bot.onText(/\/currentbid (\w+)/, ...)], the same text in both files. *)
Definition onText_currentbid (chat : Z) (itemName : string) : M unit :=
  try_catch
    (found <- query (fun d => find (has_name itemName) (items d)) ;;
     match found with
     | None => detached (sendMessage chat (NoSuchItem itemName))
     | Some item =>
         match current_bid item with
         | None => detached (sendMessage chat (NoBidsYet itemName))
         | Some b => detached (sendMessage chat (CurrentBid itemName (amount b)))
         end
     end)
    (fun _ =>
       console ErrFetchingBid ;;
       detached (sendMessage chat CurrentBidFailed)).

(** What arrives: a chat message that one of the command patterns matches
    (with the groups already read as numbers), or the 60-second timer.
    [/currentbid], [/items], [/help] and the inline-keyboard callback only
    read the database and answer; they are left out of the inputs. *)
Inductive Command :=
| CmdRegister
| CmdCreateItem (itemName : string) (lowAmount highAmount : Z)
                (rest : option (Z * Direction))  (* minutes and direction, if written *)
| CmdBid (itemName : string) (bidAmount : Z)
| CmdBiddedItems.

Inductive Input :=
| Message (chat from : Z) (c : Command)
| Tick.

(** ** [src/index.js] *)
Module Simple.

(** [bot.onText(/\/createitem (\w+) (\d+) (\d+)/, ...)] *)
Definition onText_createitem (chat from : Z) (itemName : string)
    (lowAmount highAmount : Z) : M unit :=
  if (lowAmount <=? 0) || (highAmount <=? 0) || (lowAmount >=? highAmount) then
    detached (sendMessage chat InvalidAmounts)
  else
    try_catch
      (registeredUser <- query (fun d => find (has_userId from) (users d)) ;;
       match registeredUser with
       | None => detached (sendMessage chat NeedRegister)
       | Some _ =>
           insertOne_item (fun id =>
             mkItem id itemName from lowAmount highAmount None Null None None) ;;
           detached (sendMessage chat (ItemCreated itemName lowAmount highAmount None None))
       end)
      (fun _ =>
         console ErrCreating ;;
         detached (sendMessage chat CreateFailed)).

(** [bot.onText(/\/bid (\w+) (\d+)/, ...)] *)
Definition onText_bid (chat from : Z) (itemName : string) (bidAmount : Z) : M unit :=
  try_catch
    (if bidAmount <=? 0 then detached (sendMessage chat InvalidBid)
     else
       found <- query (fun d => find (has_name itemName) (items d)) ;;
       match found with
       | None => detached (sendMessage chat (NoSuchItem itemName))
       | Some item =>
           if (bidAmount <? lowAmount item) || (bidAmount >? highAmount item) then
             detached (sendMessage chat (OutOfRange (lowAmount item) (highAmount item)))
           else
             bid_session chatId chat from itemName bidAmount item
       end)
    (fun _ =>
       console ErrPlacingBid ;;
       detached (sendMessage chat BidError)).

Definition range_line (it : Item) : RangeLine :=
  mkRangeLine (name it) (option_map amount (current_bid it)) (lowAmount it) (highAmount it).

(** [bot.onText(/\/items/, ...)] *)
Definition onText_items (chat : Z) : M unit :=
  try_catch
    (all <- query (fun d => items d) ;;
     match all with
     | [] => detached (sendMessage chat NoItems)
     | _ => detached (sendMessage chat (ItemRangeList (map range_line all)))
     end)
    (fun _ =>
       console ErrListingItems ;;
       detached (sendMessage chat ItemsFailed)).

(** The patterns of [index.js] against an input; it has no timer and no
    [/biddeditems], and its [/createitem] pattern also matches a message
    that goes on with minutes and a direction. *)
Definition handle (i : Input) : M unit :=
  match i with
  | Message chat from CmdRegister => onText_register chat from
  | Message chat from (CmdCreateItem n lo hi _) => onText_createitem chat from n lo hi
  | Message chat from (CmdBid n a) => onText_bid chat from n a
  | Message _ _ CmdBiddedItems => ret tt
  | Tick => ret tt
  end.

End Simple.

(** ** [src/unnamed/part_000] *)
Module Timed.

(** [endTime <= now] on a document field: false when the field is missing. *)
Definition ended (it : Item) (t : Z) : bool :=
  match endTime it with
  | Some e => e <=? t
  | None => false
  end.

(** [!item.completed], and the query [completed: { $ne: true }]. *)
Definition not_completed (it : Item) : bool :=
  match completed it with
  | Some true => false
  | _ => true
  end.

Definition final_amount (it : Item) : Z :=
  match current_bid it with
  | Some b => amount b
  | None => 0
  end.

(** [async function checkAndFinalizeAuction(item)] *)
Definition checkAndFinalizeAuction (item : Item) : M unit :=
  t <- newDate ;;
  if ended item t && not_completed item then
    match current_bid item with
    | Some highestBid =>
        winner <- query (fun d => find (has_userId (bid_userId highestBid)) (users d)) ;;
        match winner with
        | Some u => await (sendMessage (userId u) (Won (name item) (amount highestBid)))
        | None => ret tt
        end
    | None => ret tt
    end ;;
    creator <- query (fun d => find (has_userId (creatorId item)) (users d)) ;;
    match creator with
    | Some u => await (sendMessage (userId u) (Ended (name item) (final_amount item)))
    | None => ret tt
    end ;;
    try_catch
      (write (SetCompleted (_id item)) ;;
       write (DeleteItem (_id item)) ;;
       console (LogDeleted (name item)))
      (fun _ => console (ErrFinalizing (name item)))
  else ret tt.

(** [for (const item of items) { await ... }] *)
Fixpoint forEach {A} (l : list A) (body : A -> M unit) : M unit :=
  match l with
  | [] => ret tt
  | x :: r => body x ;; forEach r body
  end.

(** The callback of [setInterval(..., 60000)]. *)
Definition sweep : M unit :=
  try_catch
    (t <- newDate ;;
     expired <- query (fun d => filter (fun it => ended it t && not_completed it) (items d)) ;;
     forEach expired checkAndFinalizeAuction)
    (fun _ => console ErrSweep).

(** [bot.onText(/\/createitem (\w+) (\d+) (\d+) (\d+) (low|high)/, ...)] *)
Definition onText_createitem (chat from : Z) (itemName : string)
    (lowAmount highAmount auctionDurationMinutes : Z) (direction : Direction) : M unit :=
  if (lowAmount <=? 0) || (highAmount <=? 0) || (lowAmount >=? highAmount) then
    detached (sendMessage chat InvalidAmounts)
  else
    t <- newDate ;;
    let endTime := t + auctionDurationMinutes * 60000 in
    try_catch
      (registeredUser <- query (fun d => find (has_userId from) (users d)) ;;
       match registeredUser with
       | None => detached (sendMessage chat NeedRegister)
       | Some _ =>
           insertOne_item (fun id =>
             mkItem id itemName from lowAmount highAmount (Some endTime) Null
                    (Some false) (Some direction)) ;;
           detached (sendMessage chat
             (ItemCreated itemName lowAmount highAmount (Some direction) (Some endTime)))
       end)
      (fun _ =>
         console ErrCreating ;;
         detached (sendMessage chat CreateFailed)).

Definition is_low (it : Item) : bool :=
  match bidDirection it with Some low => true | _ => false end.
Definition is_high (it : Item) : bool :=
  match bidDirection it with Some high => true | _ => false end.

(** [bot.onText(/\/bid (\w+) (\d+)/, ...)] *)
Definition onText_bid (chat from : Z) (itemName : string) (bidAmount : Z) : M unit :=
  try_catch
    (if bidAmount <=? 0 then detached (sendMessage chat InvalidBid)
     else
       found <- query (fun d => find (has_name itemName) (items d)) ;;
       match found with
       | None => detached (sendMessage chat (NoSuchItem itemName))
       | Some item =>
           t <- newDate ;;
           if ended item t then detached (sendMessage chat (AuctionEnded itemName))
           else if is_low item && (bidAmount >=? highAmount item) then
             detached (sendMessage chat (TowardsLow (highAmount item)))
           else if is_high item && (bidAmount <=? lowAmount item) then
             detached (sendMessage chat (TowardsHigh (lowAmount item)))
           else
             bid_session userId chat from itemName bidAmount item
       end)
    (fun _ =>
       console ErrPlacingBid ;;
       detached (sendMessage chat BidError)).

(** The filter [{ highestBid: { $exists: true } }]: the document has the
    field, whatever it holds, [null] included. *)
Definition highestBid_exists (it : Item) : bool :=
  match highestBid it with
  | Missing => false
  | _ => true
  end.

Definition summary (it : Item) : Line :=
  mkLine (name it) (option_map amount (current_bid it))
         (option_map timestamp (current_bid it)).

(** [bot.onText(/\/biddeditems/, ...)] *)
Definition onText_biddeditems (chat : Z) : M unit :=
  try_catch
    (listed <- query (fun d => filter highestBid_exists (items d)) ;;
     match listed with
     | [] => detached (sendMessage chat NoBiddedItems)
     | _ => detached (sendMessage chat (BiddedItems (map summary listed)))
     end)
    (fun _ =>
       console ErrListing ;;
       detached (sendMessage chat ListFailed)).

(** [bot.onText(/\/items/, ...)] *)
Definition onText_items (chat : Z) : M unit :=
  try_catch
    (all <- query (fun d => items d) ;;
     match all with
     | [] => detached (sendMessage chat NoItems)
     | _ => detached (sendMessage chat (ItemList (map summary all)))
     end)
    (fun _ =>
       console ErrListingItems ;;
       detached (sendMessage chat ItemsFailed)).

(** The filter of the sweep:
    [{ endTime: { $lte: now }, completed: { $ne: true } }]. *)
Definition expired (t : Z) (it : Item) : bool := ended it t && not_completed it.

(** The patterns of [part_000] against an input; its [/createitem] pattern
    needs the minutes and the direction. *)
Definition handle (i : Input) : M unit :=
  match i with
  | Message chat from CmdRegister => onText_register chat from
  | Message chat from (CmdCreateItem n lo hi (Some (mins, dir))) =>
      onText_createitem chat from n lo hi mins dir
  | Message _ _ (CmdCreateItem _ _ _ None) => ret tt
  | Message chat from (CmdBid n a) => onText_bid chat from n a
  | Message chat _ CmdBiddedItems => onText_biddeditems chat
  | Tick => sweep
  end.

End Timed.

(** ** Reachable worlds *)

(** The worlds a program gets to from the empty database: before each
    input the environment picks the time and which external calls fail. *)
Inductive reachable (handle : Input -> M unit) : World -> Prop :=
| reach_init : reachable handle init
| reach_step (w : World) (i : Input) (f : list bool) (t : Z) :
    reachable handle w -> reachable handle (exec (handle i) (env f t w)).

(** The messages, console lines and writes of a run from [w] to [w']. *)
Definition during (w w' : World) : list Event :=
  skipn (List.length (trace w)) (trace w').

(** The two programs, and what each does with an input. *)
Inductive Program := index_js | part_000.

Definition handler (p : Program) : Input -> M unit :=
  match p with
  | index_js => Simple.handle
  | part_000 => Timed.handle
  end.

(** [previousBidder.chatId] in [index.js], [previousBidder.userId] in [part_000]. *)
Definition outbid_dest (p : Program) : User -> Z :=
  match p with
  | index_js => chatId
  | part_000 => userId
  end.

(** A run over a script of inputs, each with its failure plan and time. *)
Fixpoint play (handle : Input -> M unit) (script : list (Input * list bool * Z))
    (w : World) : World :=
  match script with
  | [] => w
  | (i, f, t) :: r => play handle r (exec (handle i) (env f t w))
  end.

(** Item ids are pairwise distinct and below the id supply. *)
Definition wf (w : World) : Prop :=
  NoDup (map _id (items (db w))) /\
  Forall (fun it => (_id it < nextId w)%nat) (items (db w)).

(** A step of [highestBid]: unchanged, or a bid strictly above the one before. *)
Definition raised (old new : Field Bid) : Prop :=
  new = old \/
  exists b, new = Value b /\
    match old with
    | Value prev => amount prev < amount b
    | _ => True
    end.

(** The writes of a sweep. *)
Definition sweep_op (op : WriteOp) : Prop :=
  match op with
  | SetCompleted _ | DeleteItem _ => True
  | _ => False
  end.

(** The spec's invariant on one item: no highest bid, or one within
    [[lowAmount, highAmount]]. *)
Definition within_bounds (it : Item) : Prop :=
  match highestBid it with
  | Value b => lowAmount it <= amount b <= highAmount it
  | _ => True
  end.

(** How many stored users carry a [userId]. *)
Definition records_of (u : Z) (d : Db) : nat :=
  List.length (filter (has_userId u) (users d)).

(** Between two states of the items collection, every surviving record
    keeps its highest bid or gets a strictly higher one. *)
Definition only_raises (before after : list Item) : Prop :=
  forall it it', In it before -> In it' after -> _id it = _id it' ->
    raised (highestBid it) (highestBid it').

(** What one input can do to the database. *)
Inductive changes (w w' : World) : Prop :=
| ch_none :
    db w' = db w -> (nextId w <= nextId w')%nat -> changes w w'
| ch_user (u : User) :
    find (has_userId (userId u)) (users (db w)) = None ->
    db w' = apply_write (db w) (InsertUser u) ->
    nextId w' = nextId w -> changes w w'
| ch_item (it : Item) :
    _id it = nextId w -> highestBid it = Null ->
    db w' = apply_write (db w) (InsertItem it) ->
    nextId w' = S (nextId w) -> changes w w'
| ch_bid (locked : Item) (b : Bid) :
    find (has_id (_id locked)) (items (db w)) = Some locked ->
    itemId b = _id locked ->
    match current_bid locked with Some cur => amount cur < amount b | None => True end ->
    db w' = apply_writes (db w) [InsertBid b; SetHighestBid (_id locked) b] ->
    nextId w' = nextId w -> changes w w'
| ch_sweep (ops : list WriteOp) :
    Forall sweep_op ops ->
    db w' = apply_writes (db w) ops ->
    nextId w' = nextId w -> changes w w'.

(** No two stored users share a [userId]. *)
Definition users_distinct (d : Db) : Prop := NoDup (map userId (users d)).

(** The bid an item shows as its highest is in the bid log. *)
Definition shown_bids_logged (d : Db) : Prop :=
  forall it b, In it (items d) -> highestBid it = Value b -> In b (bids d).

(** A logged bid on an item that is still stored is reflected there: the
    item shows a highest bid of at least that amount. *)
Definition logged_bids_shown (d : Db) : Prop :=
  forall b it, In b (bids d) -> In it (items d) -> itemId b = _id it ->
    exists top, highestBid it = Value top /\ amount b <= amount top.

Definition consistent (w : World) : Prop :=
  wf w /\ users_distinct (db w) /\ shown_bids_logged (db w) /\
  logged_bids_shown (db w) /\
  Forall (fun b => (itemId b < nextId w)%nat) (bids (db w)).

(** Every record of [w'] has the [_id] of a record of [w], or an [_id] that
    [w] had not given out yet. *)
Definition survives (w w' : World) : Prop :=
  forall it', In it' (items (db w')) ->
    (exists it, In it (items (db w)) /\ _id it = _id it') \/ (nextId w <= _id it')%nat.

(** ** Scenarios *)

(** User 1 registers from chat 1 and puts up "vase", bids from 10 to 20,
    one minute (or "lamp", towards low amounts). *)
Definition seller_registers : Input * list bool * Z :=
  (Message 1 1 CmdRegister, [], 0).
Definition vase_created : Input * list bool * Z :=
  (Message 1 1 (CmdCreateItem "vase" 10 20 (Some (1, high))), [], 0).
Definition lamp_created : Input * list bool * Z :=
  (Message 1 1 (CmdCreateItem "lamp" 10 20 (Some (1, low))), [], 0).
Definition bid_at_1s (who : Z) (what : string) (a : Z) : Input * list bool * Z :=
  (Message who who (CmdBid what a), [], 1000).

Definition vase_open (p : Program) : World :=
  play (handler p) [seller_registers; vase_created] init.
Definition vase_with_bid (p : Program) (who a : Z) : World :=
  play (handler p) [seller_registers; vase_created; bid_at_1s who "vase" a] init.
Definition lamp_with_bid (p : Program) (who a : Z) : World :=
  play (handler p) [seller_registers; lamp_created; bid_at_1s who "lamp" a] init.
Definition vase_twice (p : Program) : World :=
  play (handler p) [seller_registers; vase_created; vase_created] init.

(** User 1 holds the highest bid, 12, on "vase"; at 2 s every database
    call will succeed and the sixth external call, the outbid message, fail. *)
Definition vase_notice_fails (p : Program) : World :=
  env [false; false; false; false; false; true; false] 2000 (vase_with_bid p 1 12).

(** Users 1 and 7 are registered, user 7 holds the only bid, 15, on "vase",
    "lamp" has no bid, and the minute of both auctions is over. *)
Definition bidder_registers : Input * list bool * Z :=
  (Message 7 7 CmdRegister, [], 0).
Definition auctions_over (f : list bool) : World :=
  env f 60000
    (play Timed.handle
       [seller_registers; bidder_registers; vase_created; lamp_created;
        bid_at_1s 7 "vase" 15] init).
Definition vase_sold : Item :=
  mkItem 0 "vase" 1 10 20 (Some 60000) (Value (mkBid 0 7 15 1000)) (Some false) (Some high).
Definition lamp_unsold : Item :=
  mkItem 1 "lamp" 1 10 20 (Some 60000) Null (Some false) (Some low).

(** The scenario of the spec: "vase" from 10 to 20 for one minute, a bid of
    15 by registered user 7 at time 0, the timer 61 seconds later. *)
Definition sold_after_61s : World :=
  play Timed.handle
    [seller_registers; bidder_registers; vase_created;
     (Message 7 7 (CmdBid "vase" 15), [], 0); (Tick, [], 61000)] init.

(** ** Further notions *)

(** What the bid handler of a program checks on the item before it opens
    the transaction: the range in [index.js]; the deadline, then the bound
    that faces the direction, in [part_000]. *)
Definition passes_checks (p : Program) (item : Item) (a t : Z) : bool :=
  match p with
  | index_js => negb ((a <? lowAmount item) || (a >? highAmount item))
  | part_000 =>
      negb (Timed.ended item t)
      && negb (Timed.is_low item && (a >=? highAmount item))
      && negb (Timed.is_high item && (a <=? lowAmount item))
  end.

(** A message that answers a command: any message but the outbid notice. *)
Definition is_answer (e : Event) : bool :=
  match e with
  | Sent _ (Outbid _ _) _ => false
  | Sent _ _ _ => true
  | _ => false
  end.

(** The handler sent [t] to [chat] and did nothing else that shows (a
    rejected send is logged by the process). *)
Definition answered (chat : Z) (t : Text) (evs : list Event) : Prop :=
  exists ok, evs = Sent chat t ok :: (if ok then [] else [Console UnhandledRejection]).


(** What [/createitem] checks of an item, and the fields each program gives it. *)
Definition valid_item (p : Program) (d : Db) (it : Item) : Prop :=
  0 < lowAmount it < highAmount it /\
  find (has_userId (creatorId it)) (users d) <> None /\
  match p with
  | index_js => endTime it = None /\ bidDirection it = None /\ completed it = None
  | part_000 => endTime it <> None /\ bidDirection it <> None /\ completed it <> None
  end.

(** The commands a program has a pattern for. *)
Definition handled (p : Program) (c : Command) : Prop :=
  match p, c with
  | index_js, CmdBiddedItems => False
  | part_000, CmdCreateItem _ _ _ None => False
  | _, _ => True
  end.

(** A write of the sweep on one of the items [ids]. *)
Definition targets (ids : list nat) (op : WriteOp) : Prop :=
  match op with
  | SetCompleted id | DeleteItem id => In id ids
  | _ => False
  end.

(** What a finalization in which no call fails does for one item, in order:
    the winner's message, the creator's message, the two writes, the log line. *)
Definition finalization_events (us : list User) (it : Item) : list Event :=
  match current_bid it with
  | Some b =>
      match find (has_userId (bid_userId b)) us with
      | Some u => [Sent (userId u) (Won (name it) (amount b)) true]
      | None => []
      end
  | None => []
  end ++
  match find (has_userId (creatorId it)) us with
  | Some u => [Sent (userId u) (Ended (name it) (Timed.final_amount it)) true]
  | None => []
  end ++
  [Wrote (SetCompleted (_id it)); Wrote (DeleteItem (_id it));
   Console (LogDeleted (name it))].

(** The fields of an item that no handler writes after the insert. *)
Definition fixed_fields (it : Item) : string * Z * Z * Z * option Z * option Direction :=
  (name it, creatorId it, lowAmount it, highAmount it, endTime it, bidDirection it).

(** "vase" as [/createitem] of each program stores it. *)
Definition vase_simple : Item := mkItem 0 "vase" 1 10 20 None Null None None.
Definition vase_timed : Item :=
  mkItem 0 "vase" 1 10 20 (Some 60000) Null (Some false) (Some high).

Unset Implicit Arguments.

(** * Lists and writes *)

Lemma skipn_app_exact {A} (l r : list A) : skipn (List.length l) (l ++ r) = r.
Proof. induction l; simpl; auto. Qed.

Lemma during_app w w' l : trace w' = trace w ++ l -> during w w' = l.
Proof. unfold during. intros ->. apply skipn_app_exact. Qed.

Lemma during_same w w' : trace w' = trace w -> during w w' = [].
Proof. unfold during. intros ->. apply skipn_all. Qed.

Lemma find_has_id id l it : find (has_id id) l = Some it -> In it l /\ _id it = id.
Proof.
  intros H. apply find_some in H. destruct H as [H1 H2].
  split; [assumption|]. now apply Nat.eqb_eq.
Qed.

Lemma update_first_ids p f (l : list Item) :
  (forall it, _id (f it) = _id it) -> map _id (update_first p f l) = map _id l.
Proof.
  intros Hf. induction l as [|x r IH]; simpl; [reflexivity|].
  destruct (p x); simpl; [now rewrite Hf|now rewrite IH].
Qed.

Lemma update_first_In {A} p (f : A -> A) (l : list A) y :
  In y (update_first p f l) ->
  In y l \/ exists x, find p l = Some x /\ y = f x.
Proof.
  induction l as [|x r IH]; simpl; [tauto|].
  destruct (p x) eqn:E; simpl.
  - intros [<-|H]; [right; eauto|left; auto].
  - intros [<-|H]; [left; auto|].
    destruct (IH H) as [H1|H1]; [left; auto|right; assumption].
Qed.

Lemma delete_first_In {A} p (l : list A) y : In y (delete_first p l) -> In y l.
Proof.
  induction l as [|x r IH]; simpl; [tauto|].
  destruct (p x); simpl; [auto|]. intros [<-|H]; auto.
Qed.

Lemma delete_first_ids_NoDup p (l : list Item) :
  NoDup (map _id l) -> NoDup (map _id (delete_first p l)).
Proof.
  induction l as [|x r IH]; simpl; [auto|].
  intros H. inversion H as [|? ? Hx Hr]; subst.
  destruct (p x); simpl; [assumption|].
  constructor; [|auto].
  intros Hin. apply Hx. apply in_map_iff in Hin. destruct Hin as [y [E Hy]].
  apply in_map_iff. exists y. split; [assumption|]. eapply delete_first_In; eauto.
Qed.

Lemma delete_first_gone id (l : list Item) it :
  NoDup (map _id l) -> In it (delete_first (has_id id) l) -> _id it <> id.
Proof.
  induction l as [|x r IH]; simpl; [tauto|].
  intros H. inversion H as [|? ? Hx Hr]; subst.
  unfold has_id at 1. destruct (Nat.eqb (_id x) id) eqn:E; simpl.
  - apply Nat.eqb_eq in E. subst id. intros Hin Heq. apply Hx.
    rewrite <- Heq. now apply in_map.
  - apply Nat.eqb_neq in E. intros [<-|Hin]; [assumption|auto].
Qed.

Lemma NoDup_ids_eq (l : list Item) x y :
  NoDup (map _id l) -> In x l -> In y l -> _id x = _id y -> x = y.
Proof.
  induction l as [|z r IH]; simpl; [tauto|].
  intros H. inversion H as [|? ? Hz Hr]; subst.
  intros [<-|Hx] [<-|Hy] E; auto.
  - exfalso. apply Hz. rewrite E. now apply in_map.
  - exfalso. apply Hz. rewrite <- E. now apply in_map.
Qed.

Lemma apply_writes_app d ops1 ops2 :
  apply_writes d (ops1 ++ ops2) = apply_writes (apply_writes d ops1) ops2.
Proof. unfold apply_writes. apply fold_left_app. Qed.

(** * Symbolic execution of handlers *)

Ltac expose w := destruct w as [[?us ?its ?bs] ?tx ?n ?t ?fl ?tr].

Ltac norm :=
  cbv beta iota zeta delta
    [exec handler Simple.handle Timed.handle outbid_dest
     onText_register Simple.onText_createitem Simple.onText_bid
     Timed.onText_createitem Timed.onText_bid Timed.onText_biddeditems
     bid_session insertOne_item try_finally try_catch bind query query_in_session
     write write_in_session commitTransaction abortTransaction startTransaction
     endSession detached await sendMessage console fails get modify ret throw
     newDate emit with_db with_txn with_faults with_nextId env
     db txn nextId now faults trace users items bids fst snd negb
     apply_writes fold_left] in *.

Ltac branch :=
  match goal with
  | H : find ?p ?l = _ |- context [find ?p ?l] => rewrite H
  | H : current_bid ?i = _ |- context [current_bid ?i] => rewrite H
  | |- context [match ?l with [] => _ | _ :: _ => _ end] =>
      is_var l; destruct l as [|[|] ?]
  | |- context [match find ?p ?l with Some _ => _ | None => _ end] =>
      destruct (find p l) eqn:?
  | |- context [match current_bid ?i with Some _ => _ | None => _ end] =>
      destruct (current_bid i) eqn:?
  | |- context [match filter ?p ?l with [] => _ | _ :: _ => _ end] =>
      destruct (filter p l) eqn:?
  | |- context [if ?b then _ else _] => destruct b eqn:?
  end; norm.

Ltac run_all := norm; repeat branch.

(** The events of a run, read off the two traces. *)
Ltac trace_eq := cbn [trace]; rewrite <- ?app_assoc; reflexivity.
Ltac during_norm :=
  repeat first [ rewrite during_same by reflexivity
               | erewrite during_app by trace_eq ];
  cbn [app].

(** No event of some kind in a trace that is written out. *)
Ltac no_event :=
  let H := fresh "Hin" in
  intros ? H; simpl in H;
  repeat (destruct H as [H|H]; [discriminate H|]); contradiction.

(** * What each handler does to the database *)

Lemma register_db chat from w :
  let w' := exec (onText_register chat from) w in
  txn w' = txn w /\ nextId w' = nextId w /\
  (db w' = db w \/
   (find (has_userId from) (users (db w)) = None /\
    db w' = apply_write (db w) (InsertUser (mkUser from chat)))).
Proof.
  expose w. run_all; repeat split; auto.
Qed.

Lemma simple_createitem_db chat from n lo hi w :
  let w' := exec (Simple.onText_createitem chat from n lo hi) w in
  txn w' = txn w /\ (nextId w <= nextId w')%nat /\
  (db w' = db w \/
   (nextId w' = S (nextId w) /\
    db w' = apply_write (db w)
              (InsertItem (mkItem (nextId w) n from lo hi None Null None None)))).
Proof.
  expose w. run_all; repeat split; auto.
Qed.

Lemma timed_createitem_db chat from n lo hi mins dir w :
  let w' := exec (Timed.onText_createitem chat from n lo hi mins dir) w in
  txn w' = txn w /\ (nextId w <= nextId w')%nat /\
  (db w' = db w \/
   (nextId w' = S (nextId w) /\
    db w' = apply_write (db w)
              (InsertItem (mkItem (nextId w) n from lo hi (Some (now w + mins * 60000))
                                  Null (Some false) (Some dir))))).
Proof.
  expose w. run_all; repeat split; auto.
Qed.

(** The bid handler of either program changes the database by the two
    writes of one commit, or not at all. *)
Lemma bid_db p chat from n a w :
  let w' := exec (handler p (Message chat from (CmdBid n a))) w in
  nextId w' = nextId w /\
  (db w' = db w \/
   exists item locked,
     find (has_name n) (items (db w)) = Some item /\
     find (has_id (_id item)) (items (db w)) = Some locked /\
     match current_bid locked with Some cur => amount cur < a | None => True end /\
     db w' = apply_writes (db w)
               [InsertBid (mkBid (_id locked) from a (now w));
                SetHighestBid (_id locked) (mkBid (_id locked) from a (now w))]).
Proof.
  expose w. destruct p; run_all; (split; [reflexivity|]);
    try (left; reflexivity).
  all: right; do 2 eexists; split; [reflexivity|]; split; [eassumption|].
  all: try match goal with H : current_bid _ = _ |- _ => rewrite H end.
  all: split; [try lia; try exact I|reflexivity].
Qed.

Lemma biddeditems_db chat w :
  let w' := exec (Timed.onText_biddeditems chat) w in
  txn w' = txn w /\ nextId w' = nextId w /\ db w' = db w.
Proof.
  expose w. run_all; repeat split; auto.
Qed.

(** One finalization writes nothing, or marks the item, or marks and deletes it. *)
Lemma finalize_db item w :
  let w' := exec (Timed.checkAndFinalizeAuction item) w in
  txn w' = txn w /\ nextId w' = nextId w /\
  (db w' = db w \/
   db w' = apply_writes (db w) [SetCompleted (_id item)] \/
   db w' = apply_writes (db w) [SetCompleted (_id item); DeleteItem (_id item)]).
Proof.
  expose w. unfold Timed.checkAndFinalizeAuction. run_all; repeat split; auto.
Qed.

Lemma forEach_finalize_db l : forall w,
  let w' := exec (Timed.forEach l Timed.checkAndFinalizeAuction) w in
  txn w' = txn w /\ nextId w' = nextId w /\
  exists ops, Forall sweep_op ops /\ db w' = apply_writes (db w) ops.
Proof.
  induction l as [|x r IH]; intros w; simpl.
  - repeat split; auto. exists []. split; [constructor|reflexivity].
  - unfold exec, bind.
    destruct (Timed.checkAndFinalizeAuction x w) as [[u|e] w1] eqn:E;
      pose proof (finalize_db x w) as H; unfold exec in H; rewrite E in H;
      simpl in H; destruct H as (Ht & Hn & Hd).
    + specialize (IH w1). unfold exec in IH. simpl in IH.
      destruct IH as (Ht' & Hn' & ops & Hops & Hd').
      split; [congruence|]. split; [congruence|].
      destruct Hd as [Hd|[Hd|Hd]]; rewrite Hd' , Hd.
      * exists ops. auto.
      * exists (SetCompleted (_id x) :: ops). split; [constructor; simpl; auto|reflexivity].
      * exists (SetCompleted (_id x) :: DeleteItem (_id x) :: ops).
        split; [repeat constructor; auto|reflexivity].
    + simpl. split; [assumption|]. split; [assumption|].
      destruct Hd as [Hd|[Hd|Hd]]; rewrite Hd.
      * exists []. split; [constructor|reflexivity].
      * exists [SetCompleted (_id x)]. split; [repeat constructor|reflexivity].
      * exists [SetCompleted (_id x); DeleteItem (_id x)].
        split; [repeat constructor|reflexivity].
Qed.

(** A sweep only marks items completed and deletes items. *)
Lemma sweep_db w :
  let w' := exec Timed.sweep w in
  txn w' = txn w /\ nextId w' = nextId w /\
  exists ops, Forall sweep_op ops /\ db w' = apply_writes (db w) ops.
Proof.
  unfold Timed.sweep, exec, try_catch, bind, newDate, get, query, fails, throw.
  destruct w as [d tx n t fl tr]; simpl.
  destruct fl as [|[|] fl]; simpl.
  - match goal with |- context [Timed.forEach ?l _ ?v] =>
      pose proof (forEach_finalize_db l v) as H; unfold exec in H;
      destruct (Timed.forEach l Timed.checkAndFinalizeAuction v) as [[u|e] w1]
    end; simpl in *; exact H.
  - unfold console, modify, emit. simpl. repeat split; auto.
    exists []. split; [constructor|reflexivity].
  - match goal with |- context [Timed.forEach ?l _ ?v] =>
      pose proof (forEach_finalize_db l v) as H; unfold exec in H;
      destruct (Timed.forEach l Timed.checkAndFinalizeAuction v) as [[u|e] w1]
    end; simpl in *; exact H.
Qed.

(** * One input, one change *)

Lemma step_changes p i w : changes w (exec (handler p i) w).
Proof.
  destruct i as [chat from c|].
  - destruct c as [|n lo hi rest|n a|].
    + replace (exec (handler p (Message chat from CmdRegister)) w)
        with (exec (onText_register chat from) w) by (destruct p; reflexivity).
      destruct (register_db chat from w) as (_ & Hn & [Hd|[Hnone Hd]]).
      * apply ch_none; [exact Hd|lia].
      * now apply ch_user with (u := mkUser from chat).
    + destruct p; simpl.
      * destruct (simple_createitem_db chat from n lo hi w) as (_ & Hn & [Hd|[Hs Hd]]).
        -- now apply ch_none.
        -- eapply ch_item; [| |exact Hd|exact Hs]; reflexivity.
      * destruct rest as [[mins dir]|]; [|now apply ch_none].
        destruct (timed_createitem_db chat from n lo hi mins dir w)
          as (_ & Hn & [Hd|[Hs Hd]]).
        -- now apply ch_none.
        -- eapply ch_item; [| |exact Hd|exact Hs]; reflexivity.
    + destruct (bid_db p chat from n a w)
        as (Hn & [Hd|(item & locked & _ & Hlock & Hcur & Hd)]).
      * apply ch_none; [exact Hd|lia].
      * destruct (find_has_id _ _ _ Hlock) as [_ Hid]. rewrite <- Hid in Hlock.
        apply ch_bid with (locked := locked) (b := mkBid (_id locked) from a (now w));
          [exact Hlock|reflexivity|exact Hcur|exact Hd|exact Hn].
    + destruct p; simpl; [now apply ch_none|].
      destruct (biddeditems_db chat w) as (_ & Hn & Hd). apply ch_none; [exact Hd|lia].
  - destruct p; simpl; [now apply ch_none|].
    destruct (sweep_db w) as (_ & Hn & ops & Hops & Hd). now apply ch_sweep with ops.
Qed.

(** * Item ids stay distinct *)

Lemma sweep_ops_items ops : Forall sweep_op ops -> forall d,
  users (apply_writes d ops) = users d /\
  bids (apply_writes d ops) = bids d /\
  (NoDup (map _id (items d)) -> NoDup (map _id (items (apply_writes d ops)))) /\
  (forall it', In it' (items (apply_writes d ops)) ->
     exists it, In it (items d) /\ (it' = it \/ it' = set_completed it)).
Proof.
  induction 1 as [|op ops Hop _ IH]; intros d.
  - simpl. repeat split; auto. intros it' H. exists it'. auto.
  - change (apply_writes d (op :: ops)) with (apply_writes (apply_write d op) ops).
    destruct (IH (apply_write d op)) as (Hu & Hb & Hn & Hi).
    destruct op; simpl in Hop; try contradiction; simpl in *.
    + repeat split; auto.
      * intros Hd. apply Hn. now rewrite update_first_ids.
      * intros it' Hin. destruct (Hi it' Hin) as (it & Hit & Hor).
        apply update_first_In in Hit. destruct Hit as [Hit|(x & Hx & ->)].
        -- exists it. auto.
        -- apply find_some in Hx. exists x. split; [tauto|].
           destruct Hor as [->| ->]; auto.
    + repeat split; auto.
      * intros Hd. apply Hn. now apply delete_first_ids_NoDup.
      * intros it' Hin. destruct (Hi it' Hin) as (it & Hit & Hor).
        exists it. split; [eapply delete_first_In; eauto|assumption].
Qed.

Lemma wf_insert_item w w' it :
  wf w -> _id it = nextId w -> nextId w' = S (nextId w) ->
  db w' = apply_write (db w) (InsertItem it) -> wf w'.
Proof.
  intros [Hnd Hlt] Hid Hn Hd. unfold wf. rewrite Hd, Hn. simpl. split.
  - rewrite map_app. simpl. apply NoDup_app;
      [assumption|repeat constructor; simpl; tauto|].
    intros a Ha [Ha2|[]]. apply in_map_iff in Ha. destruct Ha as (x & Hx & Hin).
    rewrite Forall_forall in Hlt. specialize (Hlt x Hin). lia.
  - apply Forall_app. split.
    + eapply Forall_impl; [|exact Hlt]. simpl. intros; lia.
    + constructor; [lia|constructor].
Qed.

Lemma wf_same_items w w' :
  wf w -> items (db w') = items (db w) -> (nextId w <= nextId w')%nat -> wf w'.
Proof.
  intros [Hnd Hlt] Hi Hn. unfold wf. rewrite Hi. split; [assumption|].
  eapply Forall_impl; [|exact Hlt]. simpl. intros; lia.
Qed.

Lemma wf_bid_writes w w' id b :
  wf w -> nextId w' = nextId w ->
  db w' = apply_writes (db w) [InsertBid b; SetHighestBid id b] -> wf w'.
Proof.
  intros [Hnd Hlt] Hn Hd. unfold wf. rewrite Hd, Hn. simpl. split.
  - now rewrite update_first_ids.
  - rewrite Forall_forall in *. intros x Hx.
    apply update_first_In in Hx. destruct Hx as [Hx|(y & Hy & ->)]; [auto|].
    apply find_some in Hy. simpl. apply Hlt. tauto.
Qed.

Lemma wf_sweep_writes w w' ops :
  wf w -> nextId w' = nextId w -> Forall sweep_op ops ->
  db w' = apply_writes (db w) ops -> wf w'.
Proof.
  intros [Hnd Hlt] Hn Hops Hd. unfold wf. rewrite Hd, Hn.
  destruct (sweep_ops_items ops Hops (db w)) as (_ & _ & Hk & Hi). split; [auto|].
  rewrite Forall_forall in *. intros x Hx.
  destruct (Hi x Hx) as (it & Hit & [->| ->]); simpl; auto.
Qed.

Lemma changes_wf w w' : changes w w' -> wf w -> wf w'.
Proof.
  intros [Hd Hn|u Hnone Hd Hn|it Hid Hnull Hd Hn
         |locked b Hlock Hbid Hcur Hd Hn|ops Hops Hd Hn] Hw.
  - apply (wf_same_items w); [assumption|now rewrite Hd|assumption].
  - apply (wf_same_items w); [assumption|now rewrite Hd|lia].
  - now apply (wf_insert_item w w' it).
  - now apply (wf_bid_writes w w' (_id locked) b).
  - now apply (wf_sweep_writes w w' ops).
Qed.

Lemma wf_step p w i : wf w -> wf (exec (handler p i) w).
Proof. apply changes_wf, step_changes. Qed.

Lemma reachable_wf p w : reachable (handler p) w -> wf w.
Proof.
  induction 1 as [|w i f t _ IH].
  - split; constructor.
  - apply wf_step. exact IH.
Qed.

Lemma play_reachable handle script : forall w,
  reachable handle w -> reachable handle (play handle script w).
Proof.
  induction script as [|[[i f] t] r IH]; intros w Hw; simpl; [exact Hw|].
  apply IH. now constructor.
Qed.

(** * The log and the items agree *)
Lemma update_first_In_id l id f it' :
  NoDup (map _id l) -> (forall x, _id (f x) = _id x) ->
  In it' (update_first (has_id id) f l) ->
  (In it' l /\ _id it' <> id) \/
  (exists x, find (has_id id) l = Some x /\ it' = f x).
Proof.
  intros Hnd Hf. induction l as [|x r IH]; simpl; [tauto|].
  inversion Hnd as [|? ? Hx Hr]; subst.
  unfold has_id at 1 3. destruct (Nat.eqb (_id x) id) eqn:E; simpl.
  - apply Nat.eqb_eq in E. intros [<-|Hin]; [right; eauto|].
    left. split; [auto|]. intros Heq. apply Hx. rewrite E, <- Heq. now apply in_map.
  - apply Nat.eqb_neq in E. intros [<-|Hin]; [left; auto|].
    destruct (IH Hr Hin) as [[H1 H2]|H]; [left; auto|right; exact H].
Qed.

Lemma changes_consistent w w' : changes w w' -> consistent w -> consistent w'.
Proof.
  intros Hch (Hwf & Hu & Hs & Hl & Hb). unfold consistent.
  destruct Hch as [Hd Hn|u Hnone Hd Hn|it Hid Hnull Hd Hn
                  |locked b Hlock Hbid Hcur Hd Hn|ops Hops Hd Hn].
  - split; [apply (changes_wf w); [now apply ch_none|assumption]|].
    rewrite Hd. repeat (split; [assumption|]).
    eapply Forall_impl; [|exact Hb]. simpl. intros; lia.
  - split; [apply (changes_wf w); [now apply ch_user with u|assumption]|].
    rewrite Hd, Hn. simpl. split; [|auto].
    unfold users_distinct. simpl. rewrite map_app. simpl.
    apply NoDup_app; [exact Hu|repeat constructor; simpl; tauto|].
    intros a Ha [<-|[]]. apply in_map_iff in Ha. destruct Ha as (x & Hx & Hin).
    apply (find_none _ _ Hnone) in Hin. unfold has_userId in Hin.
    rewrite Hx, Z.eqb_refl in Hin. discriminate.
  - split; [apply (wf_insert_item w w' it); assumption|].
    rewrite Hd, Hn. simpl. split; [exact Hu|]. split; [|split].
    + intros x c Hx Hc. apply in_app_or in Hx. destruct Hx as [Hx|[<-|[]]];
        [solve [eauto]|congruence].
    + intros c x Hc Hx E. apply in_app_or in Hx. destruct Hx as [Hx|[<-|[]]];
        [solve [eauto]|].
      rewrite Forall_forall in Hb. specialize (Hb c Hc). simpl in Hb. lia.
    + eapply Forall_impl; [|exact Hb]. simpl. intros; lia.
  - split; [apply (wf_bid_writes w w' (_id locked) b); assumption|].
    rewrite Hd, Hn. simpl. split; [exact Hu|].
    destruct Hwf as [Hnd Hlt]. split; [|split].
    + intros x c Hx Hc.
      apply update_first_In in Hx. destruct Hx as [Hx|(y & _ & ->)].
      * apply in_or_app. left. exact (Hs x c Hx Hc).
      * simpl in Hc. injection Hc as <-. apply in_or_app. right. simpl. auto.
    + intros c x Hc Hx E.
      apply update_first_In_id in Hx; [|assumption|reflexivity].
      apply in_app_or in Hc. destruct Hx as [[Hx Hne]|(y & Hy & ->)].
      * destruct Hc as [Hc|[<-|[]]]; [solve [eauto]|congruence].
      * rewrite Hlock in Hy. injection Hy as <-. simpl. exists b. split; [reflexivity|].
        destruct Hc as [Hc|[<-|[]]]; [|lia].
        apply find_has_id in Hlock. destruct Hlock as [Hin _].
        destruct (Hl c locked Hc Hin E) as (top & Htop & Hle).
        unfold current_bid in Hcur. rewrite Htop in Hcur. lia.
    + apply Forall_app. split; [exact Hb|]. constructor; [|constructor].
      apply find_has_id in Hlock. destruct Hlock as [Hin _].
      rewrite Forall_forall in Hlt. specialize (Hlt locked Hin). simpl in Hlt. lia.
  - split; [apply (wf_sweep_writes w w' ops); assumption|].
    rewrite Hd, Hn.
    destruct (sweep_ops_items ops Hops (db w)) as (Hus & Hbs & _ & Hi).
    unfold users_distinct, shown_bids_logged, logged_bids_shown.
    rewrite Hus, Hbs. split; [exact Hu|]. split; [|split; [|exact Hb]].
    + intros x c Hx Hc. destruct (Hi x Hx) as (y & Hy & [->| ->]);
        exact (Hs y c Hy Hc).
    + intros c x Hc Hx E. destruct (Hi x Hx) as (y & Hy & [->| ->]);
        exact (Hl c y Hc Hy E).
Qed.

Lemma reachable_consistent p w : reachable (handler p) w -> consistent w.
Proof.
  induction 1 as [|w i f t _ IH].
  - repeat split; try constructor; intros ? ? [].
  - apply (changes_consistent (env f t w)); [apply step_changes|exact IH].
Qed.

(** * Bid bounds *)

Lemma simple_bid_db chat from n a w :
  let w' := exec (Simple.onText_bid chat from n a) w in
  db w' = db w \/
  exists item locked,
    find (has_name n) (items (db w)) = Some item /\
    lowAmount item <= a <= highAmount item /\
    find (has_id (_id item)) (items (db w)) = Some locked /\
    db w' = apply_writes (db w)
              [InsertBid (mkBid (_id locked) from a (now w));
               SetHighestBid (_id locked) (mkBid (_id locked) from a (now w))].
Proof.
  expose w. run_all; try (left; reflexivity).
  all: right; do 2 eexists; split; [reflexivity|]; split; [lia|].
  all: split; [eassumption|reflexivity].
Qed.

(** X1: in [index.js] the range check of the bid handler tests both bounds,
    and in every reachable world the highest bid of every item lies within
    [[lowAmount, highAmount]]. *)
Theorem simple_bids_within_bounds w :
  reachable Simple.handle w -> Forall within_bounds (items (db w)).
Proof.
  induction 1 as [|w i f t Hr IH]; [constructor|].
  assert (Hw : wf (env f t w)) by (apply (reachable_wf index_js) in Hr; exact Hr).
  change (items (db w)) with (items (db (env f t w))) in IH.
  revert Hw IH. generalize (env f t w). clear. intros w Hw IH.
  destruct i as [chat from [|n lo hi rest|n a|]|]; simpl; try exact IH.
  - destruct (register_db chat from w) as (_ & _ & [Hd|[_ Hd]]); rewrite Hd; exact IH.
  - destruct (simple_createitem_db chat from n lo hi w) as (_ & _ & [Hd|[_ Hd]]);
      rewrite Hd; [exact IH|].
    simpl. apply Forall_app. split; [exact IH|]. repeat constructor.
  - destruct (simple_bid_db chat from n a w)
      as [Hd|(item & locked & Hitem & Hrange & Hlock & Hd)]; rewrite Hd; [exact IH|].
    simpl. rewrite Forall_forall in *. intros x Hx.
    apply update_first_In in Hx. destruct Hx as [Hx|(y & Hy & ->)]; [auto|].
    apply find_some in Hitem. apply find_has_id in Hlock, Hy.
    destruct Hw as [Hnd _].
    assert (y = item)
      by (apply NoDup_ids_eq with (l := items (db w)); try tauto;
          destruct Hy as [_ ->]; destruct Hlock as [_ ->]; reflexivity).
    subst y. unfold within_bounds. simpl. exact Hrange.
Qed.

Local Open Scope string_scope.
Local Open Scope list_scope.

(** C1, on [part_000]: its bid handler checks one bound only, the one that
    faces the item's direction, although its own help text promises bids
    within the specified bid range, as [index.js] enforces.  A bid of
    100 on a 10-20 item of direction high, and a bid of 5 on a 10-20 item of
    direction low, are both accepted and become [highestBid] outside
    [[lowAmount, highAmount]], in a reachable world. *)
Theorem C1_directed_bid_leaves_bounds :
  reachable Timed.handle (vase_with_bid part_000 7 100) /\
  reachable Timed.handle (lamp_with_bid part_000 7 5) /\
  items (db (vase_with_bid part_000 7 100)) =
    [mkItem 0 "vase" 1 10 20 (Some 60000) (Value (mkBid 0 7 100 1000))
            (Some false) (Some high)] /\
  items (db (lamp_with_bid part_000 7 5)) =
    [mkItem 0 "lamp" 1 10 20 (Some 60000) (Value (mkBid 0 7 5 1000))
            (Some false) (Some low)] /\
  ~ Forall within_bounds (items (db (vase_with_bid part_000 7 100))) /\
  ~ Forall within_bounds (items (db (lamp_with_bid part_000 7 5))).
Proof.
  split; [apply (play_reachable Timed.handle); constructor|].
  split; [apply (play_reachable Timed.handle); constructor|].
  split; [vm_compute; reflexivity|]. split; [vm_compute; reflexivity|].
  split; intros H; inversion H as [|? ? Hb _]; subst;
    unfold within_bounds in Hb; simpl in Hb; lia.
Qed.

(** * Registration *)

Lemma filter_find_none {A} (p : A -> bool) l : find p l = None -> filter p l = [].
Proof.
  induction l as [|x r IH]; simpl; [reflexivity|].
  destruct (p x); [discriminate|assumption].
Qed.

Lemma filter_found_distinct from us u :
  NoDup (map userId us) -> find (has_userId from) us = Some u ->
  filter (has_userId from) us = [u].
Proof.
  induction us as [|x r IH]; simpl; [discriminate|].
  intros Hnd. inversion Hnd as [|? ? Hx Hr]; subst.
  destruct (has_userId from x) eqn:E.
  - intros [= <-]. f_equal. apply filter_find_none.
    destruct (find (has_userId from) r) as [y|] eqn:Ey; [|reflexivity].
    exfalso. apply find_some in Ey. destruct Ey as [Hy Ey].
    unfold has_userId in E, Ey. apply Z.eqb_eq in E, Ey.
    apply Hx. rewrite E, <- Ey. now apply in_map.
  - intros H. auto.
Qed.

(** C8: registering twice.  In a reachable world of either program and
    with no failing call, after two [/register] of the same user (from
    whatever chats) exactly one record with that [userId] is stored; the
    second call writes nothing and answers 'already registered'; and when
    the user was not stored before, the first call inserts the record and
    answers 'successfully registered'. *)
Theorem C8_register_twice p chat1 chat2 from t1 t2 w :
  reachable (handler p) w ->
  let w1 := exec (onText_register chat1 from) (env [] t1 w) in
  let w2 := exec (onText_register chat2 from) (env [] t2 w1) in
  records_of from (db w2) = 1%nat /\
  db w2 = db w1 /\
  during w1 w2 = [Sent chat2 AlreadyRegistered true] /\
  (find (has_userId from) (users (db w)) = None ->
   db w1 = apply_write (db w) (InsertUser (mkUser from chat1)) /\
   during w w1 = [Wrote (InsertUser (mkUser from chat1)); Sent chat1 Registered true]).
Proof.
  intros Hr. destruct (reachable_consistent p w Hr) as (_ & Hu & _).
  unfold users_distinct in Hu. clear Hr. expose w. simpl in Hu.
  assert (Hfound : find (has_userId from) (us ++ [mkUser from chat1])
                   = match find (has_userId from) us with
                     | Some u => Some u
                     | None => Some (mkUser from chat1)
                     end).
  { clear. induction us as [|x r IH]; simpl.
    - unfold has_userId. simpl. now rewrite Z.eqb_refl.
    - destruct (has_userId from x); [reflexivity|exact IH]. }
  norm. destruct (find (has_userId from) us) as [u|] eqn:Hfind; norm.
  - rewrite Hfind. norm.
    split; [|split; [reflexivity|split; [apply during_app; trace_eq|discriminate]]].
    unfold records_of. cbn [users].
    now rewrite (filter_found_distinct from us u Hu Hfind).
  - cbn [apply_write users items bids]. rewrite Hfound. norm.
    split; [|split; [reflexivity|split; [apply during_app; trace_eq|]]].
    + unfold records_of. cbn [users].
      rewrite filter_app, (filter_find_none _ _ Hfind).
      simpl. unfold has_userId. simpl. now rewrite Z.eqb_refl.
    + intros _. split; [reflexivity|apply during_app; trace_eq].
Qed.

Lemma C8_register_twice_witness :
  records_of 7 (db (exec (onText_register 9 7)
                      (env [] 5 (exec (onText_register 7 7) (env [] 0 init))))) = 1%nat /\
  db (exec (onText_register 7 7) (env [] 0 init))
  = apply_write (db init) (InsertUser (mkUser 7 7)).
Proof.
  destruct (C8_register_twice index_js 7 9 7 0 5 init (reach_init _))
    as (Hone & _ & _ & Hfirst).
  split; [exact Hone|].
  apply Hfirst. reflexivity.
Defined.

(** * Creating items *)

(** C10: [/createitem] from a user without a record in [users] leaves the
    database as it was, in both programs and whatever fails; when the
    amounts are valid (and, for [part_000], the minutes and the direction
    are written) and the lookup of the user succeeds, all the handler does
    is send 'You need to register first' to the chat. *)
Theorem C10_createitem_needs_registration p chat from n lo hi rest w :
  find (has_userId from) (users (db w)) = None ->
  let w' := exec (handler p (Message chat from (CmdCreateItem n lo hi rest))) w in
  db w' = db w /\
  (0 < lo < hi -> (p = part_000 -> rest <> None) -> hd false (faults w) = false ->
   exists ok,
     during w w' =
       Sent chat NeedRegister ok :: (if ok then [] else [Console UnhandledRejection])).
Proof.
  intros Hnone. expose w. simpl in Hnone.
  destruct p; [|destruct rest as [[mins dir]|]]; run_all; (split; [reflexivity|]);
    intros Hv Hr Hh; simpl in Hh; try discriminate; try lia;
    try (exfalso; apply Hr; reflexivity);
    during_norm; first [exists true; reflexivity|exists false; reflexivity].
Qed.

Lemma C10_createitem_needs_registration_witness :
  db (exec (handler part_000 (Message 5 5 (CmdCreateItem "vase" 10 20 (Some (1, high)))))
           init) = db init /\
  exists ok,
    during init
      (exec (handler part_000 (Message 5 5 (CmdCreateItem "vase" 10 20 (Some (1, high)))))
            init)
    = Sent 5 NeedRegister ok :: (if ok then [] else [Console UnhandledRejection]).
Proof.
  destruct (C10_createitem_needs_registration part_000 5 5 "vase" 10 20
              (Some (1, high)) init eq_refl) as [Hdb Hreply].
  split; [exact Hdb|].
  apply Hreply; [lia|discriminate|reflexivity].
Defined.

(** C9, as the spec states it, fails on both programs: neither
    [/createitem] handler looks for an item of that name before it inserts.
    Registering and creating "vase" twice stores two records named "vase". *)
Lemma C9_same_name_stored_twice :
  (reachable (handler index_js) (vase_twice index_js) /\
   map name (items (db (vase_twice index_js))) = ["vase"; "vase"]) /\
  (reachable (handler part_000) (vase_twice part_000) /\
   map name (items (db (vase_twice part_000))) = ["vase"; "vase"]).
Proof.
  split; (split; [apply play_reachable; constructor|vm_compute; reflexivity]).
Qed.

(** C9, amended: what tells item records apart is their [_id], not their
    name.  In every reachable world of either program no two item records
    share an [_id]; and [/createitem] from a registered user, with valid
    amounts and no failing call, stores one more record under the given
    name, whether or not that name is already stored. *)
Theorem C9_ids_distinct_names_repeat p w :
  reachable (handler p) w ->
  NoDup (map _id (items (db w))) /\
  forall chat from n lo hi mins dir t,
    find (has_userId from) (users (db w)) <> None ->
    0 < lo < hi ->
    let w' := exec (handler p (Message chat from (CmdCreateItem n lo hi (Some (mins, dir)))))
                   (env [] t w) in
    exists it,
      items (db w') = items (db w) ++ [it] /\
      name it = n /\ _id it = nextId w /\ highestBid it = Null /\
      NoDup (map _id (items (db w'))).
Proof.
  intros Hr. pose proof (reachable_wf p w Hr) as Hw.
  split; [exact (proj1 Hw)|].
  intros chat from n lo hi mins dir t Hreg Hv w'.
  assert (Hw' : wf w') by (apply wf_step; exact Hw).
  destruct Hw' as [Hnd _]. revert Hnd. subst w'. clear Hr Hw.
  expose w. simpl in Hreg.
  destruct p; run_all; try lia; try congruence;
    intros Hnd; eexists; repeat split; exact Hnd.
Qed.

Lemma C9_ids_distinct_names_repeat_witness :
  NoDup (map _id (items (db (vase_open part_000)))) /\
  exists it,
    items (db (exec (handler part_000
                       (Message 1 1 (CmdCreateItem "vase" 30 40 (Some (1, low)))))
                    (env [] 5 (vase_open part_000))))
    = items (db (vase_open part_000)) ++ [it] /\ name it = "vase".
Proof.
  assert (Hr : reachable (handler part_000) (vase_open part_000))
    by (apply play_reachable; constructor).
  destruct (C9_ids_distinct_names_repeat part_000 _ Hr) as [Hnd Hadd].
  split; [exact Hnd|].
  destruct (Hadd 1 1 "vase" 30 40 1 low 5) as (it & Hit & Hname & _);
    [discriminate|lia|].
  exists it. split; assumption.
Defined.

(** * The highest bid only goes up *)

Lemma only_raises_same l : NoDup (map _id l) -> only_raises l l.
Proof.
  intros Hnd it it' Hi Hi' E. left.
  now rewrite (NoDup_ids_eq l it it' Hnd Hi Hi' E).
Qed.

Lemma only_raises_insert l n it :
  NoDup (map _id l) -> Forall (fun x => (_id x < n)%nat) l -> _id it = n ->
  only_raises l (l ++ [it]).
Proof.
  intros Hnd Hlt Hid x x' Hx Hx' E. apply in_app_or in Hx'.
  destruct Hx' as [Hx'|[<-|[]]].
  - left. now rewrite (NoDup_ids_eq l x x' Hnd Hx Hx' E).
  - rewrite Forall_forall in Hlt. specialize (Hlt x Hx). lia.
Qed.

Lemma only_raises_bid l locked b :
  NoDup (map _id l) ->
  find (has_id (_id locked)) l = Some locked ->
  match current_bid locked with Some cur => amount cur < amount b | None => True end ->
  only_raises l (update_first (has_id (_id locked)) (set_highestBid b) l).
Proof.
  intros Hnd Hfind Hcur x x' Hx Hx' E.
  apply update_first_In in Hx'. destruct Hx' as [Hx'|(y & Hy & ->)].
  - left. now rewrite (NoDup_ids_eq l x x' Hnd Hx Hx' E).
  - rewrite Hfind in Hy. injection Hy as <-. simpl in E.
    apply find_has_id in Hfind. destruct Hfind as [Hin _].
    rewrite (NoDup_ids_eq l x locked Hnd Hx Hin E).
    right. exists b. split; [reflexivity|].
    unfold current_bid in Hcur. destruct (highestBid locked); auto.
Qed.

Lemma only_raises_sweep d ops :
  NoDup (map _id (items d)) -> Forall sweep_op ops ->
  only_raises (items d) (items (apply_writes d ops)).
Proof.
  intros Hnd Hops x x' Hx Hx' E.
  destruct (sweep_ops_items ops Hops d) as (_ & _ & _ & Hi).
  destruct (Hi x' Hx') as (y & Hy & Hor). left.
  assert (x = y).
  { apply (NoDup_ids_eq (items d)); auto. rewrite E. destruct Hor as [->| ->]; reflexivity. }
  subst y. destruct Hor as [->| ->]; reflexivity.
Qed.

Lemma find_id_of_found l item :
  NoDup (map _id l) -> In item l -> find (has_id (_id item)) l = Some item.
Proof.
  intros Hnd Hin. destruct (find (has_id (_id item)) l) as [y|] eqn:E.
  - apply find_has_id in E. destruct E as [Hy Eid].
    now rewrite (NoDup_ids_eq l y item Hnd Hy Hin Eid).
  - exfalso. apply (find_none _ _ E) in Hin. unfold has_id in Hin.
    now rewrite Nat.eqb_refl in Hin.
Qed.

Lemma changes_only_raises w w' :
  changes w w' -> wf w -> only_raises (items (db w)) (items (db w')).
Proof.
  intros [Hd Hn|u Hnone Hd Hn|it Hid Hnull Hd Hn
         |locked b Hlock Hbid Hcur Hd Hn|ops Hops Hd Hn] [Hnd Hlt]; rewrite Hd; simpl.
  - now apply only_raises_same.
  - now apply only_raises_same.
  - now apply only_raises_insert with (n := nextId w).
  - now apply only_raises_bid.
  - now apply only_raises_sweep.
Qed.

Lemma step_only_raises p i w :
  wf w -> only_raises (items (db w)) (items (db (exec (handler p i) w))).
Proof. apply changes_only_raises, step_changes. Qed.

Lemma raised_trans a b c : raised a b -> raised b c -> raised a c.
Proof.
  intros [->|(x & -> & Hx)] [->|(y & -> & Hy)].
  - now left.
  - right. eauto.
  - right. eauto.
  - right. exists y. split; [reflexivity|]. destruct a; auto. lia.
Qed.

Lemma changes_survives w w' :
  changes w w' -> survives w w' /\ (nextId w <= nextId w')%nat.
Proof.
  intros [Hd Hn|u Hnone Hd Hn|it Hid Hnull Hd Hn
         |locked b Hlock Hbid Hcur Hd Hn|ops Hops Hd Hn];
    (split; [|lia]); intros x Hx; rewrite Hd in Hx; simpl in Hx.
  - left. exists x. auto.
  - left. exists x. auto.
  - apply in_app_or in Hx. destruct Hx as [Hx|[<-|[]]]; [left; exists x; auto|right; lia].
  - left. apply update_first_In in Hx. destruct Hx as [Hx|(y & Hy & ->)].
    + exists x. auto.
    + apply find_some in Hy. exists y. split; [tauto|reflexivity].
  - left. destruct (sweep_ops_items ops Hops (db w)) as (_ & _ & _ & Hi).
    destruct (Hi x Hx) as (y & Hy & [->| ->]); exists y; auto.
Qed.

Lemma play_only_raises p script : forall w,
  wf w ->
  only_raises (items (db w)) (items (db (play (handler p) script w))) /\
  survives w (play (handler p) script w) /\
  (nextId w <= nextId (play (handler p) script w))%nat.
Proof.
  induction script as [|[[i f] t] r IH]; intros w Hw; simpl.
  - split; [apply only_raises_same; exact (proj1 Hw)|]. split; [|lia].
    intros x Hx. left. exists x. auto.
  - set (w1 := exec (handler p i) (env f t w)).
    assert (Hw1 : wf w1) by (apply wf_step; exact Hw).
    destruct (IH w1 Hw1) as (Hr & Hs & Hn).
    pose proof (step_only_raises p i (env f t w) Hw) as Hr1.
    destruct (changes_survives (env f t w) w1 (step_changes p i (env f t w)))
      as [Hs1 Hn1].
    change (nextId (env f t w)) with (nextId w) in *.
    change (items (db (env f t w))) with (items (db w)) in *.
    split; [|split; [|lia]].
    + intros x z Hx Hz E. destruct (Hs z Hz) as [(y & Hy & Ey)|Hnew].
      * apply raised_trans with (highestBid y).
        -- apply Hr1; [assumption|assumption|congruence].
        -- apply Hr; assumption.
      * destruct Hw as [_ Hlt]. rewrite Forall_forall in Hlt.
        specialize (Hlt x Hx). simpl in Hlt. lia.
    + intros z Hz. destruct (Hs z Hz) as [(y & Hy & Ey)|Hnew]; [|right; lia].
      destruct (Hs1 y Hy) as [(x & Hx & Ex)|Hnew].
      * left. exists x. split; [assumption|congruence].
      * right. unfold survives in Hs1. change (nextId (env f t w)) with (nextId w) in Hnew.
        lia.
Qed.

(** C2: from every reachable world of either program, over any further
    run (any inputs, times and failures), each item record that is still
    stored has the highest bid it had or one of a strictly greater amount;
    and a bid on an item whose current highest amount is at least the
    amount offered changes nothing in the database, commits nothing and
    gets no 'has been placed' answer. *)
Theorem C2_highest_bid_strictly_increases p w :
  reachable (handler p) w ->
  (forall script,
     only_raises (items (db w)) (items (db (play (handler p) script w)))) /\
  (forall chat from n a f t item cur,
     find (has_name n) (items (db w)) = Some item ->
     current_bid item = Some cur ->
     a <= amount cur ->
     let w' := exec (handler p (Message chat from (CmdBid n a))) (env f t w) in
     db w' = db w /\
     (forall ops, ~ In (Committed ops) (during w w')) /\
     (forall ok, ~ In (Sent chat (BidPlaced a n) ok) (during w w'))).
Proof.
  intros Hr. pose proof (reachable_wf p w Hr) as Hw. split.
  - intros script. exact (proj1 (play_only_raises p script w Hw)).
  - intros chat from n a f t item cur Hitem Hcur Hle.
    assert (Hlock : find (has_id (_id item)) (items (db w)) = Some item).
    { apply find_id_of_found; [exact (proj1 Hw)|]. now apply find_some in Hitem. }
    clear Hr Hw. expose w. simpl in Hitem, Hlock.
    destruct p; run_all; try lia; during_norm;
      (split; [reflexivity|]); split; no_event.
Qed.

Lemma C2_highest_bid_strictly_increases_witness :
  db (exec (handler part_000 (Message 8 8 (CmdBid "vase" 12)))
           (env [] 2000 (vase_with_bid part_000 7 15)))
  = db (vase_with_bid part_000 7 15) /\
  only_raises (items (db (vase_with_bid part_000 7 15)))
    (items (db (play (handler part_000)
                  [(Message 8 8 (CmdBid "vase" 18), [], 2000);
                   (Message 9 9 (CmdBid "vase" 19), [], 3000)]
                  (vase_with_bid part_000 7 15)))).
Proof.
  assert (Hr : reachable (handler part_000) (vase_with_bid part_000 7 15))
    by (apply play_reachable; constructor).
  destruct (C2_highest_bid_strictly_increases part_000 _ Hr) as [Hrun Hreject].
  split.
  - apply (Hreject 8 8 "vase" 12 [] 2000
             (mkItem 0 "vase" 1 10 20 (Some 60000) (Value (mkBid 0 7 15 1000))
                     (Some false) (Some high))
             (mkBid 0 7 15 1000)); [vm_compute; reflexivity|reflexivity|simpl; lia].
  - apply Hrun.
Defined.

(** * The bid transaction *)

Lemma find_update_first {A} (p : A -> bool) f l x :
  find p l = Some x -> p (f x) = true -> find p (update_first p f l) = Some (f x).
Proof.
  intros Hfind Hp. induction l as [|y r IH]; simpl in *; [discriminate|].
  destruct (p y) eqn:E.
  - injection Hfind as ->. simpl. now rewrite Hp.
  - simpl. rewrite E. auto.
Qed.

(** The bid handler writes both or neither. *)
Lemma bid_commits_pair_or_nothing p chat from n a w :
  let w' := exec (handler p (Message chat from (CmdBid n a))) w in
  (forall op, ~ In (Wrote op) (during w w')) /\
  ((db w' = db w /\ forall ops, ~ In (Committed ops) (during w w')) \/
   (exists locked,
      let b := mkBid (_id locked) from a (now w) in
      find (has_id (_id locked)) (items (db w)) = Some locked /\
      users (db w') = users (db w) /\
      bids (db w') = bids (db w) ++ [b] /\
      items (db w') = update_first (has_id (_id locked)) (set_highestBid b) (items (db w)) /\
      find (has_id (_id locked)) (items (db w')) = Some (set_highestBid b locked) /\
      In (Committed [InsertBid b; SetHighestBid (_id locked) b]) (during w w'))) /\
  (txn w = None -> txn w' = None) /\
  (forall c ok, In (Sent chat (TooLow c) ok) (during w w') ->
     db w' = db w /\ In Aborted (during w w') /\
     forall ops, ~ In (Committed ops) (during w w')).
Proof.
  expose w. destruct p; run_all; during_norm.
  all: split; [no_event|].
  all: split; [|split; [intros; first [reflexivity|assumption]|]].
  all: try (left; split; [reflexivity|no_event]).
  all: try (right;
       match goal with H : find (has_id _) _ = Some ?l |- _ =>
         exists l; cbn [apply_write users items bids];
         destruct (find_has_id _ _ _ H) as [_ Hid]; rewrite <- Hid in H;
         repeat split; try reflexivity; try exact H;
         [apply find_update_first; [exact H|apply Nat.eqb_refl]
         |rewrite Hid; simpl; auto] end).
  all: intros c ok Hin; simpl in Hin;
       repeat (destruct Hin as [Hin|Hin]; [try discriminate Hin|]);
       try contradiction.
  all: split; [reflexivity|split; [simpl; auto|no_event]].
Qed.

(** C3: a run of the bid handler of either program, from any world and
    with any failures, never writes outside its transaction; it leaves the
    database as it was and commits nothing, or it commits exactly the pair
    of writes (the bid appended to the log, the same bid as [highestBid] of
    the item) in one commit; no pending write outlives the run; when the
    answer is 'must be higher than the current highest bid', the
    transaction was aborted and the database is as it was.  So in every
    reachable world the highest bid an item shows is in the log, and every
    logged bid on a stored item is reflected by the highest bid the item
    shows. *)
Theorem C3_bid_is_all_or_nothing p chat from n a w :
  let w' := exec (handler p (Message chat from (CmdBid n a))) w in
  ((forall op, ~ In (Wrote op) (during w w')) /\
   ((db w' = db w /\ forall ops, ~ In (Committed ops) (during w w')) \/
    (exists locked,
       let b := mkBid (_id locked) from a (now w) in
       find (has_id (_id locked)) (items (db w)) = Some locked /\
       users (db w') = users (db w) /\
       bids (db w') = bids (db w) ++ [b] /\
       items (db w') = update_first (has_id (_id locked)) (set_highestBid b) (items (db w)) /\
       find (has_id (_id locked)) (items (db w')) = Some (set_highestBid b locked) /\
       In (Committed [InsertBid b; SetHighestBid (_id locked) b]) (during w w'))) /\
   (txn w = None -> txn w' = None) /\
   (forall c ok, In (Sent chat (TooLow c) ok) (during w w') ->
      db w' = db w /\ In Aborted (during w w') /\
      forall ops, ~ In (Committed ops) (during w w'))) /\
  (reachable (handler p) w ->
   shown_bids_logged (db w) /\ logged_bids_shown (db w) /\
   shown_bids_logged (db w') /\ logged_bids_shown (db w')).
Proof.
  split; [exact (bid_commits_pair_or_nothing p chat from n a w)|].
  intros Hr.
  destruct (reachable_consistent p w Hr) as (_ & _ & Hs & Hl & _).
  destruct (reachable_consistent p _ (@reach_step _ w (Message chat from (CmdBid n a))
                                        (faults w) (now w) Hr))
    as (_ & _ & Hs' & Hl' & _).
  replace (env (faults w) (now w) w) with w in Hs', Hl' by (destruct w; reflexivity).
  repeat (split; [assumption|]). assumption.
Qed.

Lemma C3_bid_is_all_or_nothing_witness :
  txn (exec (handler part_000 (Message 8 8 (CmdBid "vase" 12)))
            (vase_with_bid part_000 7 15)) = None /\
  db (exec (handler part_000 (Message 8 8 (CmdBid "vase" 12)))
           (vase_with_bid part_000 7 15)) = db (vase_with_bid part_000 7 15) /\
  In Aborted (during (vase_with_bid part_000 7 15)
                (exec (handler part_000 (Message 8 8 (CmdBid "vase" 12)))
                      (vase_with_bid part_000 7 15))) /\
  shown_bids_logged (db (vase_with_bid part_000 7 15)).
Proof.
  destruct (C3_bid_is_all_or_nothing part_000 8 8 "vase" 12 (vase_with_bid part_000 7 15))
    as ((_ & _ & Htxn & Hlow) & Hinv).
  split; [apply Htxn; reflexivity|].
  destruct (Hlow 15 true) as (Hdb & Habort & _).
  - vm_compute. right. left. reflexivity.
  - split; [assumption|]. split; [assumption|].
    apply Hinv. apply play_reachable. constructor.
Defined.

(** * The outbid notification *)

Ltac same_lookups :=
  repeat match goal with
  | H : Some _ = Some _ |- _ => injection H as ?; subst
  | H : None = Some _ |- _ => discriminate H
  | H1 : ?t = Some _, H2 : ?t = Some _ |- _ => rewrite H1 in H2
  | H1 : ?t = None, H2 : ?t = Some _ |- _ => rewrite H1 in H2; discriminate H2
  end.

(** C5, as the spec states it, fails on both programs: the handler never
    compares the previous bidder with the new one, and it notifies only a
    previous bidder it finds in [users].  User 1 holds the highest bid of 12
    on "vase" and bids 15: the bid is committed and user 1 is sent 'You have
    been outbid'.  User 7, who never registered, holds the highest bid of 12
    and user 8 bids 15: the bid is committed and nobody is sent it. *)
Lemma C5_own_bid_gets_outbid_notice :
  (map (fun it => option_map bid_userId (current_bid it))
       (items (db (vase_with_bid index_js 1 12))) = [Some 1] /\
   during (env [] 2000 (vase_with_bid index_js 1 12))
     (exec (handler index_js (Message 1 1 (CmdBid "vase" 15)))
           (env [] 2000 (vase_with_bid index_js 1 12)))
   = [Sent 1 (Outbid "vase" 15) true;
      Committed [InsertBid (mkBid 0 1 15 2000); SetHighestBid 0 (mkBid 0 1 15 2000)];
      Sent 1 (BidPlaced 15 "vase") true]) /\
  (map (fun it => option_map bid_userId (current_bid it))
       (items (db (vase_with_bid part_000 1 12))) = [Some 1] /\
   during (env [] 2000 (vase_with_bid part_000 1 12))
     (exec (handler part_000 (Message 1 1 (CmdBid "vase" 15)))
           (env [] 2000 (vase_with_bid part_000 1 12)))
   = [Sent 1 (Outbid "vase" 15) true;
      Committed [InsertBid (mkBid 0 1 15 2000); SetHighestBid 0 (mkBid 0 1 15 2000)];
      Sent 1 (BidPlaced 15 "vase") true]) /\
  (map (fun it => option_map bid_userId (current_bid it))
       (items (db (vase_with_bid part_000 7 12))) = [Some 7] /\
   during (env [] 2000 (vase_with_bid part_000 7 12))
     (exec (handler part_000 (Message 8 8 (CmdBid "vase" 15)))
           (env [] 2000 (vase_with_bid part_000 7 12)))
   = [Committed [InsertBid (mkBid 0 8 15 2000); SetHighestBid 0 (mkBid 0 8 15 2000)];
      Sent 8 (BidPlaced 15 "vase") true]).
Proof.
  repeat match goal with |- _ /\ _ => split end; vm_compute; reflexivity.
Qed.

(** C5, amended: when the bid handler of either program commits a bid, an
    outbid message for that bid goes out exactly when the item had a
    highest bid and the bidder of it is a stored user, to that user (at
    [chatId] in [index.js], at [userId] in [part_000]), whether or not he
    is the new bidder; and when the six database calls of such a run all
    succeed, the bid is committed whether the outbid message is delivered
    ([x = false]) or not ([x = true]). *)
Theorem C5_outbid_goes_to_previous_bidder p chat from n a w :
  let w' := exec (handler p (Message chat from (CmdBid n a))) w in
  (forall ops, In (Committed ops) (during w w') ->
   forall d,
     (exists ok, In (Sent d (Outbid n a) ok) (during w w')) <->
     (exists item locked previous u,
        find (has_name n) (items (db w)) = Some item /\
        find (has_id (_id item)) (items (db w)) = Some locked /\
        current_bid locked = Some previous /\
        find (has_userId (bid_userId previous)) (users (db w)) = Some u /\
        d = outbid_dest p u)) /\
  (forall x d,
     faults w = [false; false; false; false; false; x; false] ->
     In (Sent d (Outbid n a) (negb x)) (during w w') ->
     exists locked,
       find (has_id (_id locked)) (items (db w)) = Some locked /\
       db w' = apply_writes (db w)
                 [InsertBid (mkBid (_id locked) from a (now w));
                  SetHighestBid (_id locked) (mkBid (_id locked) from a (now w))]).
Proof.
  split.
  - expose w. destruct p; run_all; during_norm.
    all: intros ops Hc; simpl in Hc;
         repeat (destruct Hc as [Hc|Hc]; [try discriminate Hc|]);
         try contradiction.
    all: clear Hc; intros d; split.
    all: try (intros [ok Hin]; simpl in Hin;
              repeat (destruct Hin as [Hin|Hin]; [try discriminate Hin|]);
              try contradiction;
              injection Hin as <- _; do 4 eexists; repeat split; eassumption).
    all: intros (qi & ql & qp & qu & H1 & H2 & H3 & H4 & ->);
         same_lookups; eexists; simpl; left; reflexivity.
  - intros x d Hf. expose w. simpl in Hf. subst fl.
    destruct p; run_all; during_norm; intros Hin; simpl in Hin;
      repeat (destruct Hin as [Hin|Hin]; [try discriminate Hin|]);
      try contradiction.
    all: match goal with H : find (has_id _) _ = Some ?l |- _ =>
           exists l; destruct (find_has_id _ _ _ H) as [_ Hid]; rewrite <- Hid in H;
           split; [exact H|reflexivity] end.
Qed.

Lemma C5_outbid_goes_to_previous_bidder_witness :
  (exists ok,
     In (Sent 1 (Outbid "vase" 15) ok)
        (during (vase_notice_fails part_000)
           (exec (handler part_000 (Message 9 9 (CmdBid "vase" 15)))
                 (vase_notice_fails part_000)))) /\
  (exists locked,
     find (has_id (_id locked)) (items (db (vase_notice_fails part_000))) = Some locked /\
     db (exec (handler part_000 (Message 9 9 (CmdBid "vase" 15)))
              (vase_notice_fails part_000))
     = apply_writes (db (vase_notice_fails part_000))
         [InsertBid (mkBid (_id locked) 9 15 (now (vase_notice_fails part_000)));
          SetHighestBid (_id locked)
            (mkBid (_id locked) 9 15 (now (vase_notice_fails part_000)))]).
Proof.
  destruct (C5_outbid_goes_to_previous_bidder part_000 9 9 "vase" 15
              (vase_notice_fails part_000)) as [Hiff Hkept].
  split.
  - apply (Hiff [InsertBid (mkBid 0 9 15 2000); SetHighestBid 0 (mkBid 0 9 15 2000)]).
    + vm_compute. right. right. left. reflexivity.
    + exists (mkItem 0 "vase" 1 10 20 (Some 60000) (Value (mkBid 0 1 12 1000))
                     (Some false) (Some high)).
      exists (mkItem 0 "vase" 1 10 20 (Some 60000) (Value (mkBid 0 1 12 1000))
                     (Some false) (Some high)).
      exists (mkBid 0 1 12 1000). exists (mkUser 1 1).
      repeat split.
  - apply (Hkept true 1); [reflexivity|].
    vm_compute. left. reflexivity.
Defined.

(** * Finalization *)

(** C6, as the spec states it, fails on the order: [checkAndFinalizeAuction]
    sends both messages first and writes [completed: true] only after
    them, right before the delete.  So when the message to the winner
    fails, the record is left as it was, not marked completed.  And the
    winner is looked up in [users]: a highest bidder who never registered
    is sent nothing. *)
Lemma C6_completed_is_set_after_the_notices :
  items (db (auctions_over [])) = [vase_sold; lamp_unsold] /\
  during (auctions_over [])
         (exec (Timed.checkAndFinalizeAuction vase_sold) (auctions_over []))
  = [Sent 7 (Won "vase" 15) true; Sent 1 (Ended "vase" 15) true;
     Wrote (SetCompleted 0); Wrote (DeleteItem 0); Console (LogDeleted "vase")] /\
  db (exec (Timed.checkAndFinalizeAuction vase_sold) (auctions_over [false; true]))
  = db (auctions_over []) /\
  completed vase_sold = Some false /\
  items (db (vase_with_bid part_000 7 15)) = [vase_sold] /\
  during (env [] 60000 (vase_with_bid part_000 7 15))
         (exec (Timed.checkAndFinalizeAuction vase_sold)
               (env [] 60000 (vase_with_bid part_000 7 15)))
  = [Sent 1 (Ended "vase" 15) true;
     Wrote (SetCompleted 0); Wrote (DeleteItem 0); Console (LogDeleted "vase")].
Proof.
  repeat match goal with |- _ /\ _ => split end; vm_compute; reflexivity.
Qed.

(** C6, amended: with no failing call, finalizing an expired item that is
    not completed does, in this order: send 'won' to the highest bidder
    (when there is a highest bid and its bidder is a stored user), send
    'ended' with the final amount to the creator (when stored; the amount is
    0 without a bid), write [completed: true], delete the record, log the
    deletion.  Afterwards no stored record has the item's [_id]. *)
Theorem C6_finalize_notifies_then_completes_then_deletes item w :
  faults w = [] ->
  Timed.ended item (now w) = true ->
  Timed.not_completed item = true ->
  NoDup (map _id (items (db w))) ->
  let w' := exec (Timed.checkAndFinalizeAuction item) w in
  during w w' =
    match current_bid item with
    | Some b =>
        match find (has_userId (bid_userId b)) (users (db w)) with
        | Some u => [Sent (userId u) (Won (name item) (amount b)) true]
        | None => []
        end
    | None => []
    end ++
    match find (has_userId (creatorId item)) (users (db w)) with
    | Some u => [Sent (userId u) (Ended (name item) (Timed.final_amount item)) true]
    | None => []
    end ++
    [Wrote (SetCompleted (_id item)); Wrote (DeleteItem (_id item));
     Console (LogDeleted (name item))] /\
  (current_bid item = None -> Timed.final_amount item = 0) /\
  db w' = apply_writes (db w) [SetCompleted (_id item); DeleteItem (_id item)] /\
  forall it, In it (items (db w')) -> _id it <> _id item.
Proof.
  intros Hf He Hc Hnd. expose w. simpl in Hf, He, Hc, Hnd. subst fl.
  unfold Timed.checkAndFinalizeAuction, Timed.final_amount. norm. rewrite He, Hc. cbn [andb]. run_all;
    during_norm; (split; [reflexivity|]);
    (split; [intros; try reflexivity; try discriminate|]);
    (split; [reflexivity|]);
    intros it Hin; cbn [apply_write items users bids] in Hin;
    apply delete_first_gone in Hin; try assumption;
    rewrite update_first_ids by reflexivity; assumption.
Qed.

Lemma C6_finalize_notifies_then_completes_then_deletes_witness :
  db (exec (Timed.checkAndFinalizeAuction vase_sold) (auctions_over []))
  = apply_writes (db (auctions_over [])) [SetCompleted 0; DeleteItem 0] /\
  forall it,
    In it (items (db (exec (Timed.checkAndFinalizeAuction vase_sold) (auctions_over [])))) ->
    _id it <> 0%nat.
Proof.
  destruct (C6_finalize_notifies_then_completes_then_deletes vase_sold (auctions_over []))
    as (_ & _ & Hdb & Hgone).
  - vm_compute; reflexivity.
  - vm_compute; reflexivity.
  - vm_compute; reflexivity.
  - vm_compute. repeat constructor; simpl; intuition discriminate.
  - split; [exact Hdb|exact Hgone].
Defined.

(** The spec's scenario: after the sweep at 61 s the record is gone and the
    bidder has been sent 'won' with amount 15. *)
Example sweep_after_61s :
  items (db sold_after_61s) = [] /\
  In (Sent 7 (Won "vase" 15) true) (trace sold_after_61s).
Proof.
  split; [vm_compute; reflexivity|].
  vm_compute. do 8 right. left. reflexivity.
Qed.

(** C7: the sweep isolates only the two writes of a finalization.  The
    lookups and the awaited messages of [checkAndFinalizeAuction] are
    outside its [try], so their failure leaves the loop: with "vase" and
    "lamp" both expired and matched, a failing message to the winner of
    "vase" (or a failing lookup of him) ends the tick with "lamp" untouched;
    a failing [completed] write on "vase" is logged and "lamp" is still
    finalized. *)
Theorem C7_failed_notice_stops_the_sweep :
  filter (fun it => Timed.ended it 60000 && Timed.not_completed it)
         (items (db (auctions_over []))) = [vase_sold; lamp_unsold] /\
  (db (exec Timed.sweep (auctions_over [false; false; true])) = db (auctions_over []) /\
   during (auctions_over [false; false; true])
          (exec Timed.sweep (auctions_over [false; false; true]))
   = [Sent 7 (Won "vase" 15) false; Console ErrSweep]) /\
  (db (exec Timed.sweep (auctions_over [false; true])) = db (auctions_over []) /\
   during (auctions_over [false; true]) (exec Timed.sweep (auctions_over [false; true]))
   = [Console ErrSweep]) /\
  (items (db (exec Timed.sweep (auctions_over [false; false; false; false; false; true])))
   = [vase_sold] /\
   during (auctions_over [false; false; false; false; false; true])
          (exec Timed.sweep (auctions_over [false; false; false; false; false; true]))
   = [Sent 7 (Won "vase" 15) true; Sent 1 (Ended "vase" 15) true;
      Console (ErrFinalizing "vase");
      Sent 1 (Ended "lamp" 0) true;
      Wrote (SetCompleted 1); Wrote (DeleteItem 1); Console (LogDeleted "lamp")]).
Proof.
  repeat match goal with |- _ /\ _ => split end; vm_compute; reflexivity.
Qed.

(** * Listing the items with bids *)

Lemma highestBid_never_missing p w :
  reachable (handler p) w -> Forall (fun it => highestBid it <> Missing) (items (db w)).
Proof.
  induction 1 as [|w i f t Hr IH]; [constructor|].
  destruct (step_changes p i (env f t w))
    as [Hd Hn|u Hnone Hd Hn|it Hid Hnull Hd Hn
       |locked b Hlock Hbid Hcur Hd Hn|ops Hops Hd Hn]; rewrite Hd; simpl.
  - exact IH.
  - exact IH.
  - apply Forall_app. split; [exact IH|]. repeat constructor. congruence.
  - rewrite Forall_forall in *. intros x Hx.
    apply update_first_In in Hx. destruct Hx as [Hx|(y & _ & ->)];
      [exact (IH x Hx)|discriminate].
  - destruct (sweep_ops_items ops Hops (db w)) as (_ & _ & _ & Hi).
    rewrite Forall_forall in *. intros x Hx.
    destruct (Hi x Hx) as (y & Hy & [->| ->]); exact (IH y Hy).
Qed.

(** In every reachable world of [part_000] the filter of [/biddeditems]
    keeps every item: the answer lists the whole collection. *)
Theorem biddeditems_filter_keeps_all w :
  reachable Timed.handle w ->
  filter Timed.highestBid_exists (items (db w)) = items (db w).
Proof.
  intros Hr. apply (highestBid_never_missing part_000) in Hr.
  induction Hr as [|x l Hx _ IH]; simpl; [reflexivity|].
  unfold Timed.highestBid_exists at 1.
  destruct (highestBid x); [contradiction| |]; now rewrite IH.
Qed.

(** C4: the filter [{ highestBid: { $exists: true } }] matches every
    document that has the field, and [/createitem] writes the field as
    [null].  With "vase" created and never bid on, [/biddeditems] does
    not answer 'No items have received bids yet' as its help line ('List
    items that have received bids') announces: it lists "vase", with no
    amount. *)
Theorem C4_biddeditems_lists_item_without_bid :
  reachable Timed.handle (vase_open part_000) /\
  map highestBid (items (db (vase_open part_000))) = [Null] /\
  bids (db (vase_open part_000)) = [] /\
  during (env [] 1000 (vase_open part_000))
         (exec (Timed.onText_biddeditems 5) (env [] 1000 (vase_open part_000)))
  = [Sent 5 (BiddedItems [mkLine "vase" None None]) true].
Proof.
  split; [apply (play_reachable Timed.handle); constructor|].
  split; [vm_compute; reflexivity|].
  split; [vm_compute; reflexivity|].
  vm_compute. reflexivity.
Qed.

(** * Further properties of the handlers *)

(** X2, [index.js]: a positive bid outside [[lowAmount, highAmount]] of the
    first item of that name, the lookup of the item succeeding, is answered
    'must be within the range' and that is all: the database is as it was
    and no transaction is opened. *)
Theorem simple_bid_outside_range_rejected chat from n a item w :
  0 < a ->
  hd false (faults w) = false ->
  find (has_name n) (items (db w)) = Some item ->
  a < lowAmount item \/ highAmount item < a ->
  let w' := exec (Simple.onText_bid chat from n a) w in
  db w' = db w /\ txn w' = txn w /\
  exists ok,
    during w w' =
      Sent chat (OutOfRange (lowAmount item) (highAmount item)) ok
      :: (if ok then [] else [Console UnhandledRejection]).
Proof.
  intros Ha Hf Hitem Hout. expose w. simpl in Hf, Hitem.
  run_all; try discriminate; try lia; during_norm;
    (split; [reflexivity|]); (split; [reflexivity|]);
    first [exists true; reflexivity|exists false; reflexivity].
Qed.

Ltac answer := first [exists true; reflexivity|exists false; reflexivity].

(** X3, both programs: a bid of amount 0 is answered 'enter a valid bid
    amount' before any database call (the one external call made is that
    message); a positive bid on a name that no item has is answered 'does
    not exist'.  Neither changes the database nor opens a transaction. *)
Theorem bid_needs_amount_and_item p chat from n a w :
  let w' := exec (handler p (Message chat from (CmdBid n a))) w in
  (a <= 0 ->
   db w' = db w /\ txn w' = txn w /\ faults w' = tl (faults w) /\
   answered chat InvalidBid (during w w')) /\
  (0 < a -> hd false (faults w) = false ->
   find (has_name n) (items (db w)) = None ->
   db w' = db w /\ txn w' = txn w /\
   answered chat (NoSuchItem n) (during w w')).
Proof.
  expose w. split.
  - intros Ha. destruct p; run_all; try lia; during_norm;
      repeat (split; [reflexivity|]); answer.
  - intros Ha Hf Hnone. simpl in Hf, Hnone.
    destruct p; run_all; try lia; try discriminate; during_norm;
      repeat (split; [reflexivity|]); answer.
Qed.



(** X7, both programs: [/createitem] with a low or high amount of 0, or
    with low not below high, is answered 'enter valid low and high bid
    amounts' before any database call, registered or not; nothing is
    stored and no [_id] is used up. *)
Theorem createitem_rejects_bad_amounts p chat from n lo hi rest w :
  lo <= 0 \/ hi <= 0 \/ hi <= lo ->
  (p = part_000 -> rest <> None) ->
  let w' := exec (handler p (Message chat from (CmdCreateItem n lo hi rest))) w in
  db w' = db w /\ nextId w' = nextId w /\ faults w' = tl (faults w) /\
  answered chat InvalidAmounts (during w w').
Proof.
  intros Hbad Hrest. expose w.
  destruct p; [|destruct rest as [[mins dir]|]; [|exfalso; now apply Hrest]];
    run_all; try lia; during_norm; repeat (split; [reflexivity|]); answer.
Qed.



Lemma createitem_checked_db p chat from n lo hi rest w :
  let w' := exec (handler p (Message chat from (CmdCreateItem n lo hi rest))) w in
  db w' = db w \/
  exists it,
    db w' = apply_write (db w) (InsertItem it) /\
    0 < lowAmount it < highAmount it /\ creatorId it = from /\
    find (has_userId from) (users (db w)) <> None /\ highestBid it = Null /\
    match p with
    | index_js => endTime it = None /\ bidDirection it = None /\ completed it = None
    | part_000 => endTime it <> None /\ bidDirection it <> None /\ completed it <> None
    end.
Proof.
  expose w. destruct p; [|destruct rest as [[mins dir]|]]; run_all;
    try (left; reflexivity).
  all: right; eexists; split; [reflexivity|]; simpl.
  all: repeat split; try lia; try discriminate; try reflexivity.
Qed.

Lemma find_user_app u us more :
  find (has_userId u) us <> None -> find (has_userId u) (us ++ more) <> None.
Proof.
  induction us as [|x r IH]; simpl; [congruence|].
  destruct (has_userId u x); [discriminate|exact IH].
Qed.

(** X8: in every reachable world each stored item has
    [0 < lowAmount < highAmount] and a creator who is a stored user; the
    items of [index.js] have no [endTime], [bidDirection] or [completed]
    field, those of [part_000] have all three. *)
Theorem stored_items_are_valid p w :
  reachable (handler p) w -> Forall (valid_item p (db w)) (items (db w)).
Proof.
  induction 1 as [|w i f t Hr IH]; [constructor|].
  change (db w) with (db (env f t w)) in IH.
  revert IH. generalize (env f t w). clear. intros w IH.
  destruct i as [chat from c|].
  - destruct c as [|n lo hi rest|n a|].
    + replace (exec (handler p (Message chat from CmdRegister)) w)
        with (exec (onText_register chat from) w) by (destruct p; reflexivity).
      destruct (register_db chat from w) as (_ & _ & [Hd|[_ Hd]]); rewrite Hd;
        [exact IH|].
      simpl. eapply Forall_impl; [|exact IH].
      intros it (Hv & Hc & Hp). split; [exact Hv|]. split; [|exact Hp].
      simpl. now apply find_user_app.
    + destruct (createitem_checked_db p chat from n lo hi rest w)
        as [Hd|(it & Hd & Hv & Hc & Hu & _ & Hp)]; rewrite Hd; [exact IH|].
      simpl. apply Forall_app. split.
      * eapply Forall_impl; [|exact IH]. intros x Hx. exact Hx.
      * constructor; [|constructor]. split; [exact Hv|]. split; [|exact Hp].
        simpl. now rewrite Hc.
    + destruct (bid_db p chat from n a w)
        as (_ & [Hd|(item & locked & _ & _ & _ & Hd)]); rewrite Hd; [exact IH|].
      simpl. rewrite Forall_forall in *. intros x Hx.
      apply update_first_In in Hx. destruct Hx as [Hx|(y & Hy & ->)];
        [exact (IH x Hx)|].
      apply find_some in Hy. exact (IH y (proj1 Hy)).
    + destruct p; simpl; [exact IH|].
      destruct (biddeditems_db chat w) as (_ & _ & Hd). rewrite Hd. exact IH.
  - destruct p; simpl; [exact IH|].
    destruct (sweep_db w) as (_ & _ & ops & Hops & Hd). rewrite Hd.
    destruct (sweep_ops_items ops Hops (db w)) as (Hu & _ & _ & Hi).
    rewrite Forall_forall in *. intros x Hx.
    destruct (Hi x Hx) as (y & Hy & [->| ->]).
    * destruct (IH y Hy) as (Hv & Hc & Hp). unfold valid_item. now rewrite Hu.
    * destruct (IH y Hy) as (Hv & Hc & Hp). unfold valid_item. rewrite Hu.
      simpl. split; [exact Hv|]. split; [exact Hc|].
      destruct Hp as (He & Hdir & _). repeat split; try assumption. discriminate.
Qed.

Lemma changes_grow w w' :
  changes w w' ->
  exists us bs, users (db w') = users (db w) ++ us /\ bids (db w') = bids (db w) ++ bs.
Proof.
  intros [Hd Hn|u Hnone Hd Hn|it Hid Hnull Hd Hn
         |locked b Hlock Hbid Hcur Hd Hn|ops Hops Hd Hn]; rewrite Hd; simpl.
  - exists [], []. now rewrite !app_nil_r.
  - exists [u], []. now rewrite app_nil_r.
  - exists [], []. now rewrite !app_nil_r.
  - exists [], [b]. now rewrite app_nil_r.
  - destruct (sweep_ops_items ops Hops (db w)) as (Hu & Hb & _).
    exists [], []. now rewrite Hu, Hb, !app_nil_r.
Qed.

(** X9: over any run of either program, from any world, the users
    collection and the bid log only get records appended: what was stored
    stays, unchanged and in place. *)
Theorem users_and_bids_only_grow p script : forall w,
  exists us bs,
    users (db (play (handler p) script w)) = users (db w) ++ us /\
    bids (db (play (handler p) script w)) = bids (db w) ++ bs.
Proof.
  induction script as [|[[i f] t] r IH]; intros w; simpl.
  - exists [], []. now rewrite !app_nil_r.
  - destruct (IH (exec (handler p i) (env f t w))) as (us2 & bs2 & Hu2 & Hb2).
    destruct (changes_grow _ _ (step_changes p i (env f t w))) as (us1 & bs1 & Hu1 & Hb1).
    exists (us1 ++ us2), (bs1 ++ bs2).
    rewrite Hu2, Hb2, Hu1, Hb1, !app_assoc. split; reflexivity.
Qed.


(** X11: in every reachable world no transaction is open: whatever path
    and failure ends the bid handler, its pending writes are committed or
    dropped before it returns. *)
Theorem no_transaction_left_open p w :
  reachable (handler p) w -> txn w = None.
Proof.
  induction 1 as [|w i f t Hr IH]; [reflexivity|].
  change (txn w) with (txn (env f t w)) in IH.
  revert IH. generalize (env f t w). clear. intros w IH.
  destruct i as [chat from c|].
  - destruct c as [|n lo hi rest|n a|].
    + replace (exec (handler p (Message chat from CmdRegister)) w)
        with (exec (onText_register chat from) w) by (destruct p; reflexivity).
      destruct (register_db chat from w) as (Ht & _). congruence.
    + destruct p; simpl.
      * destruct (simple_createitem_db chat from n lo hi w) as (Ht & _). congruence.
      * destruct rest as [[mins dir]|]; [|exact IH].
        destruct (timed_createitem_db chat from n lo hi mins dir w) as (Ht & _).
        congruence.
    + destruct (bid_commits_pair_or_nothing p chat from n a w) as (_ & _ & Ht & _).
      exact (Ht IH).
    + destruct p; simpl; [exact IH|].
      destruct (biddeditems_db chat w) as (Ht & _). congruence.
  - destruct p; simpl; [exact IH|].
    destruct (sweep_db w) as (Ht & _). congruence.
Qed.

(** X12, [/currentbid]: it changes nothing; an amount it reports is the
    amount of the highest bid of the first stored item of that name; and
    when the lookup succeeds its one answer is 'does not exist' for no such
    item, 'No bids have been placed' for an item without a bid (never an
    amount), the amount otherwise. *)
Theorem currentbid_reports_stored_amount chat n w :
  let w' := exec (onText_currentbid chat n) w in
  db w' = db w /\ txn w' = txn w /\ nextId w' = nextId w /\
  (forall d a ok, In (Sent d (CurrentBid n a) ok) (during w w') ->
     d = chat /\
     exists item b,
       find (has_name n) (items (db w)) = Some item /\
       highestBid item = Value b /\ amount b = a) /\
  (hd false (faults w) = false ->
   answered chat
     match find (has_name n) (items (db w)) with
     | None => NoSuchItem n
     | Some item =>
         match current_bid item with
         | None => NoBidsYet n
         | Some b => CurrentBid n (amount b)
         end
     end (during w w')).
Proof.
  expose w. unfold onText_currentbid. run_all; during_norm;
    repeat (split; [reflexivity|]).
  all: split.
  all: try (intros Hf; simpl in Hf; try discriminate Hf; answer).
  all: intros d a ok Hin; simpl in Hin;
       repeat (destruct Hin as [Hin|Hin]; [try discriminate Hin|]);
       try contradiction.
  all: injection Hin as <- <- _; split; [reflexivity|].
  all: do 2 eexists; split; [reflexivity|].
  all: match goal with H : current_bid ?i = Some _ |- _ =>
         unfold current_bid in H; destruct (highestBid i); try discriminate H;
         injection H as ->; split; reflexivity end.
Qed.

Lemma currentbid_found chat n item b w :
  faults w = [] ->
  find (has_name n) (items (db w)) = Some item ->
  highestBid item = Value b ->
  during w (exec (onText_currentbid chat n) w) = [Sent chat (CurrentBid n (amount b)) true].
Proof.
  intros Hf Hitem Hb. expose w. simpl in Hf, Hitem. subst fl.
  assert (Hc : current_bid item = Some b) by (unfold current_bid; now rewrite Hb).
  unfold onText_currentbid. run_all; during_norm; same_lookups; reflexivity.
Qed.

Lemma placed_means_committed p chat from n a ok w :
  In (Sent chat (BidPlaced a n) ok)
     (during w (exec (handler p (Message chat from (CmdBid n a))) w)) ->
  exists item locked,
    find (has_name n) (items (db w)) = Some item /\
    find (has_id (_id item)) (items (db w)) = Some locked /\
    db (exec (handler p (Message chat from (CmdBid n a))) w)
    = apply_writes (db w)
        [InsertBid (mkBid (_id locked) from a (now w));
         SetHighestBid (_id locked) (mkBid (_id locked) from a (now w))].
Proof.
  expose w. destruct p; run_all; during_norm; intros Hin; simpl in Hin;
    repeat (destruct Hin as [Hin|Hin]; [try discriminate Hin|]);
    try contradiction.
  all: do 2 eexists; split; [reflexivity|]; split; [eassumption|reflexivity].
Qed.

Lemma find_name_update n b l item :
  NoDup (map _id l) ->
  find (has_name n) l = Some item ->
  find (has_name n) (update_first (has_id (_id item)) (set_highestBid b) l)
  = Some (set_highestBid b item).
Proof.
  induction l as [|x r IH]; simpl; [discriminate|].
  intros Hnd. inversion Hnd as [|? ? Hx Hr]; subst.
  destruct (has_name n x) eqn:E.
  - intros [= ->]. unfold has_id at 1. rewrite Nat.eqb_refl. simpl.
    unfold has_name in *. simpl. now rewrite E.
  - intros Hfind. unfold has_id at 1.
    destruct (Nat.eqb (_id x) (_id item)) eqn:Eid.
    + exfalso. apply Nat.eqb_eq in Eid. apply Hx. rewrite Eid.
      apply in_map. apply find_some in Hfind. tauto.
    + simpl. rewrite E. now apply IH.
Qed.

(** X13: in a reachable world, when the bid handler answers 'your bid has
    been placed', a [/currentbid] for that name right after (no call
    failing) answers with the amount just bid. *)
Theorem placed_bid_is_the_current_bid p chat from n a f t asker t' w :
  reachable (handler p) w ->
  let w1 := exec (handler p (Message chat from (CmdBid n a))) (env f t w) in
  (exists ok, In (Sent chat (BidPlaced a n) ok) (during w w1)) ->
  during w1 (exec (onText_currentbid asker n) (env [] t' w1))
  = [Sent asker (CurrentBid n a) true].
Proof.
  intros Hr w1 [ok Hin].
  destruct (reachable_wf p w Hr) as [Hnd _].
  apply (placed_means_committed p chat from n a ok (env f t w)) in Hin.
  destruct Hin as (item & locked & Hitem & Hlock & Hd).
  change (items (db (env f t w))) with (items (db w)) in Hitem, Hlock.
  change (db (env f t w)) with (db w) in Hd. fold w1 in Hd.
  assert (locked = item).
  { apply find_has_id in Hlock. apply find_some in Hitem.
    apply NoDup_ids_eq with (l := items (db w)); tauto. }
  subst locked.
  apply (currentbid_found asker n
           (set_highestBid (mkBid (_id item) from a (now (env f t w))) item)
           (mkBid (_id item) from a (now (env f t w))) (env [] t' w1)).
  - reflexivity.
  - change (db (env [] t' w1)) with (db w1). rewrite Hd. simpl.
    now apply find_name_update.
  - reflexivity.
Qed.

(** X14, [part_000]: in every reachable world, no call failing, [/items]
    and [/biddeditems] answer with the same lines, one per stored item in
    storage order (and each with its own 'no items' text when nothing is
    stored). *)
Theorem timed_listings_show_every_item chat t w :
  reachable Timed.handle w ->
  during w (exec (Timed.onText_items chat) (env [] t w))
  = [Sent chat match items (db w) with
               | [] => NoItems
               | l => ItemList (map Timed.summary l)
               end true] /\
  during w (exec (Timed.onText_biddeditems chat) (env [] t w))
  = [Sent chat match items (db w) with
               | [] => NoBiddedItems
               | l => BiddedItems (map Timed.summary l)
               end true].
Proof.
  intros Hr. pose proof (biddeditems_filter_keeps_all w Hr) as Hall.
  clear Hr. expose w. simpl in Hall. split.
  - unfold Timed.onText_items. norm. destruct its; norm; apply during_app; trace_eq.
  - norm. rewrite Hall. destruct its; norm; apply during_app; trace_eq.
Qed.

(** X15: whatever fails, every command a program has a pattern for sends
    exactly one message besides the outbid notice, and sends it to the chat
    the command came from; so do [/currentbid] and [/items]. *)
Theorem every_command_gets_one_answer p chat from c n w :
  (handled p c ->
   exists t ok,
     filter is_answer (during w (exec (handler p (Message chat from c)) w))
     = [Sent chat t ok]) /\
  (exists t ok,
     filter is_answer (during w (exec (onText_currentbid chat n) w)) = [Sent chat t ok]) /\
  (exists t ok,
     filter is_answer (during w (exec (Simple.onText_items chat) w)) = [Sent chat t ok]) /\
  (exists t ok,
     filter is_answer (during w (exec (Timed.onText_items chat) w)) = [Sent chat t ok]).
Proof.
  split.
  - intros Hh.
    destruct p, c as [|m lo hi [[mins dir]|]|m a|]; simpl in Hh; try contradiction;
      expose w; run_all; during_norm; cbn [filter is_answer]; do 2 eexists; reflexivity.
  - expose w. unfold onText_currentbid, Simple.onText_items, Timed.onText_items.
    repeat split; run_all; during_norm; cbn [filter is_answer]; do 2 eexists; reflexivity.
Qed.

Lemma forEach_finalize_targets l : forall w,
  exists ops,
    Forall (targets (map _id l)) ops /\
    db (exec (Timed.forEach l Timed.checkAndFinalizeAuction) w) = apply_writes (db w) ops.
Proof.
  induction l as [|x r IH]; intros w; simpl.
  - exists []. split; [constructor|reflexivity].
  - assert (Hmono : forall ops, Forall (targets (map _id r)) ops ->
                                Forall (targets (_id x :: map _id r)) ops).
    { intros ops H. eapply Forall_impl; [|exact H].
      intros [] Ht; simpl in *; auto. }
    unfold exec, bind.
    destruct (Timed.checkAndFinalizeAuction x w) as [[u|e] w1] eqn:E;
      pose proof (finalize_db x w) as H; unfold exec in H; rewrite E in H;
      simpl in H; destruct H as (_ & _ & Hd).
    + destruct (IH w1) as (ops & Hops & Hd'). unfold exec in Hd'. rewrite Hd'.
      destruct Hd as [Hd|[Hd|Hd]]; rewrite Hd.
      * exists ops. auto.
      * exists (SetCompleted (_id x) :: ops).
        split; [constructor; [simpl; auto|auto]|reflexivity].
      * exists (SetCompleted (_id x) :: DeleteItem (_id x) :: ops).
        split; [constructor; [simpl; auto|constructor; [simpl; auto|auto]]|reflexivity].
    + simpl. destruct Hd as [Hd|[Hd|Hd]]; rewrite Hd.
      * exists []. split; [constructor|reflexivity].
      * exists [SetCompleted (_id x)].
        split; [constructor; [simpl; auto|constructor]|reflexivity].
      * exists [SetCompleted (_id x); DeleteItem (_id x)].
        split; [constructor; [simpl; auto|constructor; [simpl; auto|constructor]]
               |reflexivity].
Qed.

Lemma sweep_targets w :
  exists ops,
    Forall (targets (map _id (filter (Timed.expired (now w)) (items (db w))))) ops /\
    db (exec Timed.sweep w) = apply_writes (db w) ops.
Proof.
  unfold Timed.sweep, exec, try_catch, bind, newDate, get, query, fails, throw.
  destruct w as [d tx n t fl tr]; simpl.
  destruct fl as [|[|] fl]; simpl.
  - match goal with |- context [Timed.forEach ?l _ ?v] =>
      destruct (forEach_finalize_targets l v) as (ops & Hops & Hd); unfold exec in Hd;
      destruct (Timed.forEach l Timed.checkAndFinalizeAuction v) as [[u|e] w1]
    end; simpl in *; exists ops; split; assumption.
  - exists []. split; [constructor|reflexivity].
  - match goal with |- context [Timed.forEach ?l _ ?v] =>
      destruct (forEach_finalize_targets l v) as (ops & Hops & Hd); unfold exec in Hd;
      destruct (Timed.forEach l Timed.checkAndFinalizeAuction v) as [[u|e] w1]
    end; simpl in *; exists ops; split; assumption.
Qed.

Lemma update_first_keeps id f (l : list Item) it :
  _id it <> id -> In it l -> In it (update_first (has_id id) f l).
Proof.
  intros Hne. induction l as [|x r IH]; simpl; [tauto|].
  unfold has_id at 1. destruct (Nat.eqb (_id x) id) eqn:E.
  - apply Nat.eqb_eq in E. intros [->|H]; [contradiction|right; exact H].
  - intros [->|H]; [left; reflexivity|right; auto].
Qed.

Lemma delete_first_keeps id (l : list Item) it :
  _id it <> id -> In it l -> In it (delete_first (has_id id) l).
Proof.
  intros Hne. induction l as [|x r IH]; simpl; [tauto|].
  unfold has_id at 1. destruct (Nat.eqb (_id x) id) eqn:E.
  - apply Nat.eqb_eq in E. intros [->|H]; [contradiction|exact H].
  - intros [->|H]; [left; reflexivity|right; auto].
Qed.

Lemma untargeted_item_stays ids ops it : forall d,
  Forall (targets ids) ops -> ~ In (_id it) ids ->
  In it (items d) -> In it (items (apply_writes d ops)).
Proof.
  induction ops as [|op ops IH]; intros d Hops Hout Hin; [exact Hin|].
  inversion Hops as [|? ? Hop Hrest]; subst.
  change (apply_writes d (op :: ops)) with (apply_writes (apply_write d op) ops).
  apply IH; [assumption|assumption|].
  destruct op; simpl in Hop; try contradiction; simpl.
  - apply update_first_keeps; [|exact Hin]. intros E. apply Hout. now rewrite E.
  - apply delete_first_keeps; [|exact Hin]. intros E. apply Hout. now rewrite E.
Qed.

(** X17: whatever fails, a sweep leaves the users and the bid log as they
    were and leaves in place, unchanged, every item that is not expired or
    is already marked completed (item ids being distinct). *)
Theorem sweep_spares_what_is_not_expired w :
  NoDup (map _id (items (db w))) ->
  let w' := exec Timed.sweep w in
  users (db w') = users (db w) /\ bids (db w') = bids (db w) /\
  forall it, In it (items (db w)) -> Timed.expired (now w) it = false ->
    In it (items (db w')).
Proof.
  intros Hnd w'.
  destruct (sweep_db w) as (_ & _ & ops0 & Hops0 & Hd0).
  destruct (sweep_ops_items ops0 Hops0 (db w)) as (Hu & Hb & _).
  fold w' in Hd0. rewrite <- Hd0 in Hu, Hb.
  split; [exact Hu|]. split; [exact Hb|].
  intros it Hin Hexp.
  destruct (sweep_targets w) as (ops & Hops & Hd). fold w' in Hd. rewrite Hd.
  apply untargeted_item_stays
    with (ids := map _id (filter (Timed.expired (now w)) (items (db w))));
    [exact Hops| |exact Hin].
  intros Hid. apply in_map_iff in Hid. destruct Hid as (y & Ey & Hy).
  apply filter_In in Hy. destruct Hy as [Hy Hexpy].
  assert (y = it) by (apply NoDup_ids_eq with (l := items (db w)); assumption).
  subst y. congruence.
Qed.

Lemma delete_after_update id f (l : list Item) :
  (forall x, _id (f x) = _id x) ->
  delete_first (has_id id) (update_first (has_id id) f l) = delete_first (has_id id) l.
Proof.
  intros Hf. induction l as [|x r IH]; simpl; [reflexivity|].
  destruct (has_id id x) eqn:E; simpl.
  - unfold has_id in *. now rewrite Hf, E.
  - now rewrite E, IH.
Qed.

Lemma delete_first_filter id (l : list Item) :
  NoDup (map _id l) ->
  delete_first (has_id id) l = filter (fun x => negb (has_id id x)) l.
Proof.
  induction l as [|x r IH]; simpl; [reflexivity|].
  intros Hnd. inversion Hnd as [|? ? Hx Hr]; subst.
  destruct (has_id id x) eqn:E; simpl.
  - symmetry. apply forallb_filter_id. apply forallb_forall. intros y Hy.
    unfold has_id in *. apply Nat.eqb_eq in E.
    destruct (Nat.eqb (_id y) id) eqn:Ey; [|reflexivity].
    apply Nat.eqb_eq in Ey. exfalso. apply Hx. rewrite E, <- Ey. now apply in_map.
  - now rewrite IH.
Qed.

Lemma finalize_clean item w :
  faults w = [] -> Timed.expired (now w) item = true ->
  exists w',
    Timed.checkAndFinalizeAuction item w = (Ok tt, w') /\
    faults w' = [] /\ now w' = now w /\ txn w' = txn w /\ nextId w' = nextId w /\
    users (db w') = users (db w) /\ bids (db w') = bids (db w) /\
    items (db w') = delete_first (has_id (_id item)) (items (db w)) /\
    trace w' = trace w ++ finalization_events (users (db w)) item.
Proof.
  intros Hf He. expose w. simpl in Hf, He. subst fl. unfold Timed.expired in He.
  unfold Timed.checkAndFinalizeAuction, finalization_events, Timed.final_amount.
  norm. rewrite He. run_all;
    eexists; (split; [reflexivity|]); simpl;
    repeat (split; [reflexivity|]);
    (split; [apply delete_after_update; reflexivity|]);
    rewrite <- ?app_assoc; reflexivity.
Qed.

Lemma forEach_clean l : forall w,
  faults w = [] -> Forall (fun it => Timed.expired (now w) it = true) l ->
  exists w',
    Timed.forEach l Timed.checkAndFinalizeAuction w = (Ok tt, w') /\
    faults w' = [] /\ now w' = now w /\ txn w' = txn w /\ nextId w' = nextId w /\
    users (db w') = users (db w) /\ bids (db w') = bids (db w) /\
    items (db w')
    = fold_left (fun acc it => delete_first (has_id (_id it)) acc) l (items (db w)) /\
    trace w' = trace w ++ flat_map (finalization_events (users (db w))) l.
Proof.
  induction l as [|x r IH]; intros w Hf Hall; simpl.
  - exists w. rewrite app_nil_r. repeat split; try reflexivity. exact Hf.
  - inversion Hall as [|? ? Hx Hr]; subst.
    destruct (finalize_clean x w Hf Hx)
      as (w1 & E & Hf1 & Hn1 & Ht1 & Hi1 & Hu1 & Hb1 & Hd1 & Htr1).
    unfold bind. rewrite E.
    destruct (IH w1 Hf1) as (w2 & E2 & Hf2 & Hn2 & Ht2 & Hi2 & Hu2 & Hb2 & Hd2 & Htr2);
      [now rewrite Hn1|].
    exists w2. rewrite E2, Hf2, Hn2, Ht2, Hi2, Hu2, Hb2, Hd2, Htr2.
    rewrite Hn1, Ht1, Hi1, Hu1, Hb1, Hd1, Htr1, app_assoc.
    repeat split; reflexivity.
Qed.

Lemma filter_twice {A} (p q : A -> bool) l :
  filter p (filter q l) = filter (fun x => q x && p x) l.
Proof.
  induction l as [|x r IH]; simpl; [reflexivity|].
  destruct (q x); simpl; [|exact IH]. destruct (p x); now rewrite IH.
Qed.

Lemma fold_delete_filter l : forall l0,
  NoDup (map _id l0) ->
  fold_left (fun acc it => delete_first (has_id (_id it)) acc) l l0
  = filter (fun x => negb (existsb (Nat.eqb (_id x)) (map _id l))) l0.
Proof.
  induction l as [|y r IH]; intros l0 Hnd; simpl.
  - symmetry. apply forallb_filter_id. apply forallb_forall. reflexivity.
  - rewrite IH by (now apply delete_first_ids_NoDup).
    rewrite delete_first_filter by assumption.
    rewrite filter_twice. apply filter_ext. intros x.
    unfold has_id. destruct (Nat.eqb (_id x) (_id y)); reflexivity.
Qed.

(** A sweep in which no call fails: what it leaves and what it does. *)
Lemma clean_sweep t w :
  NoDup (map _id (items (db w))) ->
  let w' := exec Timed.sweep (env [] t w) in
  items (db w') = filter (fun it => negb (Timed.expired t it)) (items (db w)) /\
  users (db w') = users (db w) /\ bids (db w') = bids (db w) /\
  txn w' = txn w /\ nextId w' = nextId w /\ faults w' = [] /\
  trace w' = trace w ++ flat_map (finalization_events (users (db w)))
                          (filter (Timed.expired t) (items (db w))).
Proof.
  intros Hnd. destruct w as [d tx n t0 fl tr]. simpl in Hnd.
  unfold Timed.sweep, exec, try_catch, bind, newDate, get, query, fails, env. simpl.
  change (fun it => Timed.ended it t && Timed.not_completed it) with (Timed.expired t).
  set (l := filter (Timed.expired t) (items d)).
  destruct (forEach_clean l (mkWorld d tx n t [] tr) eq_refl)
    as (w2 & E & Hf & _ & Htx & Hid & Hu & Hb & Hi & Htr).
  { apply Forall_forall. intros x Hx. apply filter_In in Hx. exact (proj2 Hx). }
  rewrite E. simpl. split; [|repeat (split; [assumption|]); assumption].
  rewrite Hi. simpl. rewrite fold_delete_filter by assumption.
  apply filter_ext_in. intros x Hx. f_equal.
  destruct (Timed.expired t x) eqn:Ex.
  - apply existsb_exists. exists (_id x). split; [|apply Nat.eqb_refl].
    apply in_map. apply filter_In. split; assumption.
  - destruct (existsb (Nat.eqb (_id x)) (map _id l)) eqn:Ee; [|reflexivity].
    apply existsb_exists in Ee. destruct Ee as (i & Hi' & Ei).
    apply Nat.eqb_eq in Ei. subst i.
    apply in_map_iff in Hi'. destruct Hi' as (y & Ey & Hy).
    apply filter_In in Hy. destruct Hy as [Hy Hexpy].
    assert (y = x) by (apply NoDup_ids_eq with (l := items d); assumption).
    subst y. congruence.
Qed.

(** X18: a sweep in which no call fails deletes exactly the items that
    are expired and not completed, and keeps the others in their order
    (item ids being distinct). *)
Theorem clean_sweep_removes_the_expired t w :
  NoDup (map _id (items (db w))) ->
  let w' := exec Timed.sweep (env [] t w) in
  items (db w') = filter (fun it => negb (Timed.expired t it)) (items (db w)) /\
  users (db w') = users (db w) /\ bids (db w') = bids (db w).
Proof.
  intros Hnd. pose proof (clean_sweep t w Hnd) as H. cbv zeta in H.
  destruct H as (Hi & Hu & Hb & _). repeat split; assumption.
Qed.

(** X19: a sweep in which no call fails handles the expired items in
    storage order, each one in full before the next: the message to its
    winner (if it has a bid by a stored user), the message to its creator
    with the final amount, the two writes, the log line. *)
Theorem clean_sweep_notifies_in_storage_order t w :
  NoDup (map _id (items (db w))) ->
  during w (exec Timed.sweep (env [] t w))
  = flat_map (finalization_events (users (db w)))
             (filter (Timed.expired t) (items (db w))).
Proof.
  intros Hnd. pose proof (clean_sweep t w Hnd) as H. cbv zeta in H.
  destruct H as (_ & _ & _ & _ & _ & _ & Htr). now apply during_app.
Qed.

(** X20: after a sweep in which no call fails, a second sweep at the same
    time finds nothing to finalize: it sends nothing and writes nothing. *)
Theorem second_sweep_does_nothing t w :
  NoDup (map _id (items (db w))) ->
  let w1 := exec Timed.sweep (env [] t w) in
  let w2 := exec Timed.sweep (env [] t w1) in
  db w2 = db w1 /\ during w1 w2 = [].
Proof.
  intros Hnd w1 w2.
  pose proof (clean_sweep t w Hnd) as H1. cbv zeta in H1.
  destruct H1 as (Hi & _). fold w1 in Hi.
  assert (Hnd1 : NoDup (map _id (items (db w1)))).
  { destruct (sweep_db (env [] t w)) as (_ & _ & ops & Hops & Hd). fold w1 in Hd.
    rewrite Hd. now apply (sweep_ops_items ops Hops (db w)). }
  pose proof (clean_sweep t w1 Hnd1) as H2. cbv zeta in H2.
  destruct H2 as (Hi2 & Hu2 & Hb2 & _ & _ & _ & Htr2).
  fold w2 in Hi2, Hu2, Hb2, Htr2.
  assert (Hnone : filter (Timed.expired t) (items (db w1)) = []).
  { rewrite Hi, filter_twice. rewrite <- (filter_false (items (db w))).
    apply filter_ext. intros x. destruct (Timed.expired t x); reflexivity. }
  split.
  - assert (Hsame : items (db w2) = items (db w1)).
    { rewrite Hi2. apply forallb_filter_id. apply forallb_forall. intros x Hx.
      destruct (Timed.expired t x) eqn:Ex; [|reflexivity].
      exfalso. assert (Hin : In x (filter (Timed.expired t) (items (db w1))))
        by (apply filter_In; split; assumption).
      rewrite Hnone in Hin. contradiction. }
    destruct (db w2), (db w1). simpl in *. congruence.
  - apply during_app. rewrite Htr2, Hnone. reflexivity.
Qed.

(** X21: in a reachable world, no call failing, a positive bid that passes
    the checks of the program on the first item of that name and is above
    its highest bid (if any) is committed: the bid is appended to the log,
    becomes the item's [highestBid], and the bidder is answered 'has been
    placed'. *)
Theorem valid_bid_is_placed p chat from n a t item w :
  reachable (handler p) w ->
  0 < a ->
  find (has_name n) (items (db w)) = Some item ->
  passes_checks p item a t = true ->
  match current_bid item with Some cur => amount cur < a | None => True end ->
  let w' := exec (handler p (Message chat from (CmdBid n a))) (env [] t w) in
  let b := mkBid (_id item) from a t in
  db w' = apply_writes (db w) [InsertBid b; SetHighestBid (_id item) b] /\
  In (Committed [InsertBid b; SetHighestBid (_id item) b]) (during w w') /\
  In (Sent chat (BidPlaced a n) true) (during w w') /\
  find (has_name n) (items (db w')) = Some (set_highestBid b item).
Proof.
  intros Hr Ha Hitem Hpass Hcur.
  destruct (reachable_wf p w Hr) as [Hnd _].
  assert (Hlock : find (has_id (_id item)) (items (db w)) = Some item).
  { apply find_id_of_found; [exact Hnd|]. now apply find_some in Hitem. }
  assert (Hup : forall b, find (has_name n)
                  (update_first (has_id (_id item)) (set_highestBid b) (items (db w)))
                  = Some (set_highestBid b item))
    by (intros b; now apply find_name_update).
  clear Hr Hnd. expose w. simpl in Hitem, Hlock, Hup.
  destruct p; unfold passes_checks in Hpass; run_all;
    repeat match goal with
           | E : ?c = true |- _ =>
               tryif constr_eq E Hpass then fail else
               match type of Hpass with context [c] => rewrite E in Hpass end
           end;
    simpl in Hpass; try discriminate Hpass; try lia;
    match goal with H : current_bid _ = _ |- _ => rewrite H in Hcur | _ => idtac end;
    try lia; during_norm;
    (split; [reflexivity|]); (split; [simpl; tauto|]); (split; [simpl; tauto|]);
    apply Hup.
Qed.

Lemma changes_fixed w w' :
  changes w w' -> wf w ->
  forall it it', In it (items (db w)) -> In it' (items (db w')) -> _id it = _id it' ->
    fixed_fields it = fixed_fields it'.
Proof.
  intros [Hd Hn|u Hnone Hd Hn|x Hid Hnull Hd Hn
         |locked b Hlock Hbid Hcur Hd Hn|ops Hops Hd Hn] [Hnd Hlt] it it' Hi Hi' E;
    rewrite Hd in Hi'; simpl in Hi'.
  - now rewrite (NoDup_ids_eq _ it it' Hnd Hi Hi' E).
  - now rewrite (NoDup_ids_eq _ it it' Hnd Hi Hi' E).
  - apply in_app_or in Hi'. destruct Hi' as [Hi'|[<-|[]]].
    + now rewrite (NoDup_ids_eq _ it it' Hnd Hi Hi' E).
    + rewrite Forall_forall in Hlt. specialize (Hlt it Hi). simpl in Hlt. lia.
  - apply update_first_In in Hi'. destruct Hi' as [Hi'|(y & Hy & ->)].
    + now rewrite (NoDup_ids_eq _ it it' Hnd Hi Hi' E).
    + apply find_some in Hy. simpl in E.
      now rewrite (NoDup_ids_eq _ it y Hnd Hi (proj1 Hy) E).
  - destruct (sweep_ops_items ops Hops (db w)) as (_ & _ & _ & Hk).
    destruct (Hk it' Hi') as (y & Hy & Hor).
    assert (it = y).
    { apply (NoDup_ids_eq (items (db w))); auto.
      rewrite E. destruct Hor as [->| ->]; reflexivity. }
    subst y. destruct Hor as [->| ->]; reflexivity.
Qed.

(** X22: over any run of either program, the name, creator, bounds,
    deadline and direction of an item never change while it is stored (item
    ids being distinct and below the id supply at the start). *)
Theorem item_fields_never_change p script : forall w,
  wf w ->
  forall it it',
    In it (items (db w)) -> In it' (items (db (play (handler p) script w))) ->
    _id it = _id it' -> fixed_fields it = fixed_fields it'.
Proof.
  induction script as [|[[i f] t] r IH]; intros w Hw it it' Hi Hi' E; simpl in Hi'.
  - now rewrite (NoDup_ids_eq _ it it' (proj1 Hw) Hi Hi' E).
  - set (w1 := exec (handler p i) (env f t w)) in *.
    assert (Hw1 : wf w1) by (apply wf_step; exact Hw).
    destruct (play_only_raises p r w1 Hw1) as (_ & Hs & _).
    destruct (changes_survives (env f t w) w1 (step_changes p i (env f t w)))
      as [_ Hn1].
    change (nextId (env f t w)) with (nextId w) in Hn1.
    destruct (Hs it' Hi') as [(y & Hy & Ey)|Hnew].
    + transitivity (fixed_fields y).
      * apply (changes_fixed (env f t w) w1 (step_changes p i (env f t w)) Hw it y);
          [exact Hi|exact Hy|congruence].
      * apply (IH w1 Hw1 y it' Hy Hi' Ey).
    + destruct Hw as [_ Hlt]. rewrite Forall_forall in Hlt.
      specialize (Hlt it Hi). simpl in Hlt. lia.
Qed.

(** X16: [/currentbid], [/items] of both programs and [/biddeditems] never
    write: whatever fails, the database, the open transaction and the id
    supply are as before and no write or commit is in the trace. *)
Theorem queries_change_nothing chat n w :
  let unchanged w' :=
    db w' = db w /\ txn w' = txn w /\ nextId w' = nextId w /\
    (forall op, ~ In (Wrote op) (during w w')) /\
    (forall ops, ~ In (Committed ops) (during w w')) in
  unchanged (exec (onText_currentbid chat n) w) /\
  unchanged (exec (Simple.onText_items chat) w) /\
  unchanged (exec (Timed.onText_items chat) w) /\
  unchanged (exec (Timed.onText_biddeditems chat) w).
Proof.
  expose w. unfold onText_currentbid, Simple.onText_items, Timed.onText_items. cbv zeta.
  repeat match goal with |- _ /\ _ => split end;
    run_all; during_norm; try reflexivity; no_event.
Qed.

Lemma auction_ids_distinct f : NoDup (map _id (items (db (auctions_over f)))).
Proof.
  vm_compute. constructor; [intros [H|[]]; discriminate H|].
  constructor; [intros []|constructor].
Qed.

Lemma simple_bids_within_bounds_witness :
  Forall within_bounds (items (db (vase_with_bid index_js 7 15))).
Proof.
  apply simple_bids_within_bounds. apply (play_reachable Simple.handle). constructor.
Defined.

Lemma simple_bid_outside_range_rejected_witness :
  db (exec (Simple.onText_bid 7 7 "vase" 5) (vase_open index_js)) = db (vase_open index_js).
Proof.
  apply (simple_bid_outside_range_rejected 7 7 "vase" 5 vase_simple (vase_open index_js));
    [lia|vm_compute; reflexivity|vm_compute; reflexivity|left; simpl; lia].
Defined.

Lemma bid_needs_amount_and_item_witness :
  answered 7 InvalidBid
    (during init (exec (handler part_000 (Message 7 7 (CmdBid "vase" 0))) init)) /\
  answered 7 (NoSuchItem "vase")
    (during init (exec (handler part_000 (Message 7 7 (CmdBid "vase" 5))) init)).
Proof.
  split.
  - apply (bid_needs_amount_and_item part_000 7 7 "vase" 0 init). lia.
  - apply (bid_needs_amount_and_item part_000 7 7 "vase" 5 init);
      [lia|reflexivity|reflexivity].
Defined.




Lemma createitem_rejects_bad_amounts_witness :
  answered 1 InvalidAmounts
    (during init
       (exec (handler part_000 (Message 1 1 (CmdCreateItem "vase" 20 10 (Some (1, high)))))
             init)).
Proof.
  apply (createitem_rejects_bad_amounts part_000 1 1 "vase" 20 10 (Some (1, high)) init);
    [right; right; lia|discriminate].
Defined.

Lemma stored_items_are_valid_witness :
  Forall (valid_item part_000 (db (vase_open part_000))) (items (db (vase_open part_000))).
Proof.
  apply stored_items_are_valid. apply play_reachable. constructor.
Defined.


Lemma no_transaction_left_open_witness : txn (vase_with_bid part_000 7 15) = None.
Proof.
  apply (no_transaction_left_open part_000). apply play_reachable. constructor.
Defined.

Lemma currentbid_reports_stored_amount_witness :
  answered 9 (NoBidsYet "vase")
    (during (vase_open part_000) (exec (onText_currentbid 9 "vase") (vase_open part_000))).
Proof.
  apply (currentbid_reports_stored_amount 9 "vase" (vase_open part_000)).
  vm_compute. reflexivity.
Defined.

Lemma placed_bid_is_the_current_bid_witness :
  during (exec (handler part_000 (Message 7 7 (CmdBid "vase" 15)))
               (env [] 1000 (vase_open part_000)))
         (exec (onText_currentbid 9 "vase")
               (env [] 2000 (exec (handler part_000 (Message 7 7 (CmdBid "vase" 15)))
                                  (env [] 1000 (vase_open part_000)))))
  = [Sent 9 (CurrentBid "vase" 15) true].
Proof.
  apply (placed_bid_is_the_current_bid part_000 7 7 "vase" 15 [] 1000 9 2000
           (vase_open part_000)).
  - apply play_reachable. constructor.
  - exists true. vm_compute. right. left. reflexivity.
Defined.

Lemma timed_listings_show_every_item_witness :
  during (vase_open part_000)
         (exec (Timed.onText_biddeditems 9) (env [] 5 (vase_open part_000)))
  = [Sent 9 match items (db (vase_open part_000)) with
            | [] => NoBiddedItems
            | l => BiddedItems (map Timed.summary l)
            end true].
Proof.
  apply (timed_listings_show_every_item 9 5 (vase_open part_000)).
  apply (play_reachable Timed.handle). constructor.
Defined.

Lemma every_command_gets_one_answer_witness :
  exists t ok,
    filter is_answer (during init (exec (handler index_js (Message 1 1 CmdRegister)) init))
    = [Sent 1 t ok].
Proof.
  apply (every_command_gets_one_answer index_js 1 1 CmdRegister "vase" init).
  exact I.
Defined.

Lemma sweep_spares_what_is_not_expired_witness :
  users (db (exec Timed.sweep (auctions_over [false; false; true])))
  = users (db (auctions_over [false; false; true])).
Proof.
  exact (proj1 (sweep_spares_what_is_not_expired (auctions_over [false; false; true])
                  (auction_ids_distinct _))).
Defined.

Lemma clean_sweep_removes_the_expired_witness :
  items (db (exec Timed.sweep (env [] 60000 (auctions_over []))))
  = filter (fun it => negb (Timed.expired 60000 it)) (items (db (auctions_over []))).
Proof.
  exact (proj1 (clean_sweep_removes_the_expired 60000 (auctions_over [])
                  (auction_ids_distinct _))).
Defined.

Lemma clean_sweep_notifies_in_storage_order_witness :
  during (auctions_over []) (exec Timed.sweep (env [] 60000 (auctions_over [])))
  = flat_map (finalization_events (users (db (auctions_over []))))
             (filter (Timed.expired 60000) (items (db (auctions_over [])))).
Proof.
  exact (clean_sweep_notifies_in_storage_order 60000 (auctions_over [])
           (auction_ids_distinct _)).
Defined.

Lemma second_sweep_does_nothing_witness :
  during (exec Timed.sweep (env [] 60000 (auctions_over [])))
         (exec Timed.sweep (env [] 60000 (exec Timed.sweep (env [] 60000 (auctions_over [])))))
  = [].
Proof.
  exact (proj2 (second_sweep_does_nothing 60000 (auctions_over [])
                  (auction_ids_distinct _))).
Defined.

Lemma valid_bid_is_placed_witness :
  In (Sent 7 (BidPlaced 15 "vase") true)
     (during (vase_open part_000)
        (exec (handler part_000 (Message 7 7 (CmdBid "vase" 15)))
              (env [] 1000 (vase_open part_000)))).
Proof.
  apply (valid_bid_is_placed part_000 7 7 "vase" 15 1000 vase_timed (vase_open part_000));
    [apply play_reachable; constructor|lia|vm_compute; reflexivity
    |vm_compute; reflexivity|exact I].
Defined.

Lemma item_fields_never_change_witness :
  fixed_fields vase_timed
  = fixed_fields (set_highestBid (mkBid 0 7 15 1000) vase_timed).
Proof.
  apply (item_fields_never_change part_000 [bid_at_1s 7 "vase" 15] (vase_open part_000)).
  - apply (reachable_wf part_000). apply play_reachable. constructor.
  - vm_compute. left. reflexivity.
  - vm_compute. left. reflexivity.
  - reflexivity.
Defined.
